(** * Permit.io project interaction app: transport client, entity
      repositories, reset orchestrator and preset verification.

    A shallow embedding of [src/api.js], [src/resources.js], [src/roles.js],
    [src/abac.js], [src/presets.js], [src/reset.js] and the setup functions of
    [src/horaion-setup.js].

    JavaScript values are an inductive type; an [async] function becomes a
    function in a state-and-exception monad whose state holds the remote
    world, the list of transport calls made so far and the console log. *)

From stdpp Require Import gmap strings list fin_maps pretty.
From Stdlib Require Import ZArith.

Set Warnings "-register-all".

Local Open Scope Z_scope.

(** ** JavaScript values *)

Module JS.

(** The values that JSON payloads and property reads produce. Numbers are
    kept as integers: the program only ever tests a number for truthiness,
    compares it with an integer literal or prints it. *)
Inductive value :=
| VUndef
| VNull
| VBool (b : bool)
| VNum (n : Z)
| VStr (s : string)
| VArr (l : list value)
| VObj (m : gmap string value).

Inductive exn := TypeError.

Inductive res (A : Type) :=
| Ok (a : A)
| Throw (e : exn).
Arguments Ok {A} a.
Arguments Throw {A} e.

(** ToBoolean *)
Definition truthy (v : value) : bool :=
  match v with
  | VUndef | VNull => false
  | VBool b => b
  | VNum n => negb (n =? 0)
  | VStr s => negb (String.eqb s "")
  | VArr _ | VObj _ => true
  end.

(** ToString, as a template literal applies it. *)
Fixpoint toString (v : value) : string :=
  match v with
  | VUndef => "undefined"
  | VNull => "null"
  | VBool true => "true"
  | VBool false => "false"
  | VNum n => pretty n
  | VStr s => s
  | VArr l =>
      String.concat ","
        (map (fun x => match x with
                       | VUndef | VNull => ""
                       | _ => toString x
                       end) l)
  | VObj _ => "[object Object]"
  end.

Fixpoint chars (s : string) : list value :=
  match s with
  | EmptyString => []
  | String a r => VStr (String a EmptyString) :: chars r
  end.

(** [v.k] for a property name [k] written in the source. Reading a property
    of [undefined] or [null] throws; the only inherited property the program
    reads is [length]. *)
Definition get (v : value) (k : string) : res value :=
  match v with
  | VUndef | VNull => Throw TypeError
  | VObj m => Ok (default VUndef (m !! k))
  | VArr l => Ok (if String.eqb k "length" then VNum (Z.of_nat (length l)) else VUndef)
  | VStr s => Ok (if String.eqb k "length" then VNum (Z.of_nat (String.length s)) else VUndef)
  | VBool _ | VNum _ => Ok VUndef
  end.

(** [v === 'lit'] *)
Definition str_eq (v : value) (lit : string) : bool :=
  match v with
  | VStr s => String.eqb s lit
  | _ => false
  end.

(** [v === n] for an integer literal *)
Definition num_eq (v : value) (n : Z) : bool :=
  match v with
  | VNum k => k =? n
  | _ => false
  end.

(** [lits.includes(v)] for an array literal of strings *)
Definition includes (lits : list string) (v : value) : bool :=
  match v with
  | VStr s => existsb (String.eqb s) lits
  | _ => false
  end.

(** The sequence a [for (const x of v)] loop runs over. *)
Definition iter (v : value) : res (list value) :=
  match v with
  | VArr l => Ok l
  | VStr s => Ok (chars s)
  | _ => Throw TypeError
  end.

(** The own enumerable properties copied by [{...v}]. *)
Definition spread (v : value) : gmap string value :=
  match v with
  | VObj m => m
  | VArr l => list_to_map (imap (fun i x => (pretty i, x)) l)
  | VStr s => list_to_map (imap (fun i x => (pretty i, x)) (chars s))
  | _ => ∅
  end.

(** [s.includes(sub)] on strings *)
Fixpoint prefixb (p s : string) : bool :=
  match p, s with
  | EmptyString, _ => true
  | String a p', String b s' => Ascii.eqb a b && prefixb p' s'
  | String _ _, EmptyString => false
  end.

Fixpoint str_includes (s sub : string) : bool :=
  prefixb sub s ||
  match s with
  | EmptyString => false
  | String _ s' => str_includes s' sub
  end.

End JS.
Export JS.

Local Open Scope string_scope.
Local Open Scope list_scope.

(** ** Presets ([src/presets.js]) *)

Definition PROTECTED_RESOURCES : list string := ["__user"].
Definition PROTECTED_ROLES : list string := ["admin"; "viewer"].
Definition DEFAULT_TENANT : string := "default".
Definition DEFAULT_USER_ATTRIBUTE_key : string := "department".
Definition CONDITION_SET_TYPES_USER_SET : string := "userset".
Definition CONDITION_SET_TYPES_RESOURCE_SET : string := "resourceset".

(** ** The remote service, transport calls and the console *)

Record Config := {
  apiUrl : string;
  pdpUrl : string;
  apiKey : string;
  projectId : string;
  envId : string
}.

(** What [fetch(url, options)] is given. *)
Record request := {
  url : string;
  req_method : string;
  authorization : string;
  content_type : string;
  body : option string
}.

(** What [fetch] followed by [response.text()] produces: a response with its
    status and body text, or a rejection (a network failure, or the
    [AbortError] that the 30 second timer triggers). *)
Inductive outcome :=
| Response (st : Z) (text : string)
| Failed (name message : string).

(** One invocation of [permitApi(method, endpoint, data)]. *)
Record call := Call {
  c_method : string;
  c_endpoint : string;
  c_data : value
}.

Inductive level := Info | Success | Warning | Error | Console.

(** The object [permitApi] resolves to; an absent field is [None]
    ([VUndef] for [data]). *)
Record result := {
  success : bool;
  data : value;
  status : option Z;
  exists_ : option bool;
  error : option string
}.

Record state (World : Type) := State {
  world : World;
  calls : list call;
  logs : list (level * string)
}.
Arguments State {World}.
Arguments world {World}.
Arguments calls {World}.
Arguments logs {World}.

Definition M (World A : Type) : Type := state World → res A * state World.

#[export] Instance res_ret : MRet res := fun _ a => Ok a.
#[export] Instance res_bind : MBind res := fun _ _ f r =>
  match r with
  | Ok a => f a
  | Throw e => Throw e
  end.

#[export] Instance M_ret {World} : MRet (M World) := fun _ a s => (Ok a, s).
#[export] Instance M_bind {World} : MBind (M World) := fun _ _ f m s =>
  match m s with
  | (Ok a, s') => f a s'
  | (Throw e, s') => (Throw e, s')
  end.

Definition lift {World A} (r : res A) : M World A := fun s => (r, s).

Definition log {World} (lvl : level) (msg : string) : M World unit := fun s =>
  (Ok tt, State (world s) (calls s) (logs s ++ [(lvl, msg)])).

Definition blank {World} : M World unit := log Console "".

Definition record_call {World} (c : call) : M World unit := fun s =>
  (Ok tt, State (world s) (calls s ++ [c]) (logs s)).

(** [for (const x of l) body] with an accumulator for the variables the
    body assigns. *)
Fixpoint foldM {World A B} (f : B → A → M World B) (l : list A) (b : B) : M World B :=
  match l with
  | [] => mret b
  | x :: l' => b' ← f b x; foldM f l' b'
  end.

Definition forOf {World A} (l : list A) (body : A → M World unit) : M World unit :=
  foldM (fun _ x => body x) l tt.

(** [arr.filter(cb)] for a callback that may throw. *)
Fixpoint filterR {A} (cb : A → res bool) (l : list A) : res (list A) :=
  match l with
  | [] => Ok []
  | x :: l' =>
      keep ← cb x;
      rest ← filterR cb l';
      Ok (if keep : bool then x :: rest else rest)
  end.

(** [v.filter(cb)]: only arrays have the method. *)
Definition array_filter (v : value) (cb : value → res bool) : res (list value) :=
  match v with
  | VArr l => filterR cb l
  | _ => Throw TypeError
  end.

(** [!v || v.length === 0] *)
Definition none_or_empty (v : value) : res bool :=
  if negb (truthy v) then Ok true
  else len ← get v "length"; Ok (num_eq len 0).

Definition status_is (r : result) (n : Z) : bool :=
  match status r with
  | Some st => (st =? n)%Z
  | None => false
  end.

Definition response_ok (st : Z) : bool := ((200 <=? st) && (st <=? 299))%Z.

Definition TIMEOUT_MS : Z := 30000.

(** ** Remotes used in the examples

    A scripted remote answers the n-th request with the n-th outcome of its
    script (and with an empty 200 response once the script is exhausted); a
    constant remote gives every request the same outcome. Bodies are decoded
    through a table, payloads are serialised by [simple_stringify]. *)

Definition scripted (w : list outcome) (rq : request) : outcome * list outcome :=
  match w with
  | [] => (Response 200 "", [])
  | o :: w' => (o, w')
  end.

Definition constant (o : outcome) (w : unit) (rq : request) : outcome * unit := (o, w).

Definition table_parse (tbl : list (string * value)) (text : string) : option value :=
  snd <$> find (fun e => String.eqb (fst e) text) tbl.

Definition dquote : Ascii.ascii := Ascii.ascii_of_nat 34.

Definition quoted (s : string) : string := String dquote (s +:+ String dquote "").

(** [JSON.stringify] for payloads whose strings need no escaping; the
    members of an object come out in the order of the map. *)
Fixpoint simple_stringify (v : value) : option string :=
  match v with
  | VUndef => None
  | VNull => Some "null"
  | VBool b => Some (if b then "true" else "false")
  | VNum n => Some (pretty n)
  | VStr s => Some (quoted s)
  | VArr l =>
      Some ("[" +:+ String.concat ","
                      (map (fun x => default "null" (simple_stringify x)) l) +:+ "]")
  | VObj m =>
      Some ("{" +:+ String.concat ","
                      (map_fold (fun k x acc =>
                                   match simple_stringify x with
                                   | Some t => (quoted k +:+ ":" +:+ t) :: acc
                                   | None => acc
                                   end) [] m) +:+ "}")
  end.

Definition cfg : Config :=
  {| apiUrl := "https://api.permit.io/v2";
     pdpUrl := "http://localhost:7766";
     apiKey := "key";
     projectId := "default";
     envId := "dev" |}.

Definition obj (fields : list (string * value)) : value := VObj (list_to_map fields).

Definition keyed (k : string) : value := obj [("key", VStr k)].

Definition example_rule : value :=
  obj [("user_set", VStr "staff"); ("resource_set", VStr "docs");
       ("permission", VStr "document:read")].

Definition groups_condition (scope : string) : value :=
  obj [("allOf", VArr [obj [(scope, obj [("array_contains", VStr "staff")])]])].

Definition legacy_set : value :=
  obj [("key", VStr "legacy"); ("type", VStr "userset");
       ("conditions", groups_condition "subject.groups")].

Definition staff_set : value :=
  obj [("key", VStr "staff"); ("type", VStr "userset");
       ("conditions", groups_condition "user.groups")].

Definition docs_set : value :=
  obj [("key", VStr "docs"); ("type", VStr "resourceset")].

Definition example_bodies : list (string * value) :=
  [("RULES", VArr [example_rule]);
   ("SETS", VArr [legacy_set; docs_set; staff_set]);
   ("ROLES", VArr [keyed "admin"; keyed "editor"; keyed "viewer"]);
   ("RESOURCES", VArr [keyed "__user"; keyed "invoice"])].

Definition example_parse : string → option value := table_parse example_bodies.




(** A remote whose set-rules listing is wrapped in an object. *)
Definition paged_rules : value := obj [("data", VArr [example_rule])].

Definition paged_parse : string → option value := table_parse [("PAGE", paged_rules)].

(** A remote without state that answers by method and URL; every request
    it has no route for gets an empty 204. *)
Definition routed (routes : list (string * outcome)) (w : unit) (rq : request) :
    outcome * unit :=
  (default (Response 204 "")
     (snd <$> find (fun e => String.eqb (fst e) (req_method rq +:+ " " +:+ url rq)) routes),
   w).

(** The listings of [example_bodies], each at its endpoint. *)
Definition example_routes : list (string * outcome) :=
  [("GET https://api.permit.io/v2/facts/default/dev/set_rules", Response 200 "RULES");
   ("GET https://api.permit.io/v2/schema/default/dev/condition_sets", Response 200 "SETS");
   ("GET https://api.permit.io/v2/schema/default/dev/roles", Response 200 "ROLES");
   ("GET https://api.permit.io/v2/schema/default/dev/resources", Response 200 "RESOURCES")].

Definition start {World} (w : World) : state World := State w [] [].

(** ** The preset of [src/horaion-setup.js] *)

Record resource_preset := {
  rp_key : string;
  rp_name : string;
  rp_description : string;
  rp_actions : list string
}.

Definition RESOURCES : list resource_preset :=
  [ {| rp_key := "company"; rp_name := "Company";
       rp_description := "Company management";
       rp_actions := ["create"; "read"; "update"; "delete"] |};
    {| rp_key := "branch"; rp_name := "Branch";
       rp_description := "Branch management";
       rp_actions := ["create"; "read"; "update"; "delete"] |};
    {| rp_key := "department"; rp_name := "Department";
       rp_description := "Department management";
       rp_actions := ["create"; "read"; "update"; "delete"] |};
    {| rp_key := "employee"; rp_name := "Employee";
       rp_description := "Employee management";
       rp_actions := ["create"; "read"; "update"; "delete"] |};
    {| rp_key := "rule"; rp_name := "Rule";
       rp_description := "Rule management";
       rp_actions := ["create"; "read"; "update"; "delete"] |} ].

(** A user set matching the users whose [user.groups] contains [group]. *)
Definition groups_user_set (key name description group : string) : value :=
  obj [("key", VStr key); ("name", VStr name); ("description", VStr description);
       ("conditions",
        obj [("allOf",
              VArr [obj [("user.groups", obj [("array_contains", VStr group)])]])])].

Definition USER_SETS : list value :=
  [ groups_user_set "system-administrators" "System Administrators"
      "Users with system-administrator group - Full system access"
      "system-administrator";
    groups_user_set "system-owners" "System Owners"
      "Users with system-owner group - Organization owner access"
      "system-owner";
    groups_user_set "privileged-system-users" "Privileged System Users"
      "Users with privileged-system-user group - Elevated access"
      "privileged-system-user";
    groups_user_set "users" "Users"
      "Users with user group - Basic access"
      "user" ].

Record rule_preset := {
  rl_userSet : string;
  rl_resource : string;
  rl_actions : list string
}.

Definition SET_RULES : list rule_preset :=
  [ {| rl_userSet := "system-administrators"; rl_resource := "company";
       rl_actions := ["create"; "read"; "update"; "delete"] |};
    {| rl_userSet := "system-administrators"; rl_resource := "branch";
       rl_actions := ["create"; "read"; "update"; "delete"] |};
    {| rl_userSet := "system-administrators"; rl_resource := "department";
       rl_actions := ["create"; "read"; "update"; "delete"] |};
    {| rl_userSet := "system-administrators"; rl_resource := "employee";
       rl_actions := ["create"; "read"; "update"; "delete"] |};
    {| rl_userSet := "system-administrators"; rl_resource := "rule";
       rl_actions := ["create"; "read"; "update"; "delete"] |};
    {| rl_userSet := "system-owners"; rl_resource := "company";
       rl_actions := ["create"; "read"; "update"; "delete"] |};
    {| rl_userSet := "system-owners"; rl_resource := "branch";
       rl_actions := ["create"; "read"; "update"; "delete"] |};
    {| rl_userSet := "system-owners"; rl_resource := "department";
       rl_actions := ["create"; "read"; "update"; "delete"] |};
    {| rl_userSet := "system-owners"; rl_resource := "employee";
       rl_actions := ["create"; "read"; "update"; "delete"] |};
    {| rl_userSet := "system-owners"; rl_resource := "rule";
       rl_actions := ["read"] |};
    {| rl_userSet := "privileged-system-users"; rl_resource := "company";
       rl_actions := ["read"] |};
    {| rl_userSet := "privileged-system-users"; rl_resource := "branch";
       rl_actions := ["read"] |};
    {| rl_userSet := "privileged-system-users"; rl_resource := "department";
       rl_actions := ["read"] |};
    {| rl_userSet := "privileged-system-users"; rl_resource := "employee";
       rl_actions := ["create"; "read"; "update"] |};
    {| rl_userSet := "privileged-system-users"; rl_resource := "rule";
       rl_actions := ["read"] |};
    {| rl_userSet := "users"; rl_resource := "company"; rl_actions := ["read"] |};
    {| rl_userSet := "users"; rl_resource := "branch"; rl_actions := ["read"] |};
    {| rl_userSet := "users"; rl_resource := "department"; rl_actions := ["read"] |};
    {| rl_userSet := "users"; rl_resource := "employee"; rl_actions := ["read"] |};
    {| rl_userSet := "users"; rl_resource := "rule"; rl_actions := ["read"] |} ].

(** ** Keys and display names ([src/presets.js], [src/index.js])

    A string is a sequence of code units below 256. *)

(** White space and line terminators among these code units. *)
Definition is_space (a : Ascii.ascii) : bool :=
  let n := Ascii.nat_of_ascii a in
  (n =? 9)%nat || (n =? 10)%nat || (n =? 11)%nat || (n =? 12)%nat ||
  (n =? 13)%nat || (n =? 32)%nat || (n =? 160)%nat.

Fixpoint trimStart (s : string) : string :=
  match s with
  | EmptyString => EmptyString
  | String a r => if is_space a then trimStart r else s
  end.

Fixpoint trimEnd (s : string) : string :=
  match s with
  | EmptyString => EmptyString
  | String a r =>
      match trimEnd r with
      | EmptyString => if is_space a then EmptyString else String a EmptyString
      | r' => String a r'
      end
  end.

(** [s.trim()] *)
Definition trim (s : string) : string := trimEnd (trimStart s).

Definition is_lower (a : Ascii.ascii) : bool :=
  let n := Ascii.nat_of_ascii a in (97 <=? n)%nat && (n <=? 122)%nat.

(** [[a-z0-9_-]] *)
Definition is_key_char (a : Ascii.ascii) : bool :=
  let n := Ascii.nat_of_ascii a in
  is_lower a || ((48 <=? n)%nat && (n <=? 57)%nat) || (n =? 95)%nat || (n =? 45)%nat.

Fixpoint all_chars (p : Ascii.ascii → bool) (s : string) : bool :=
  match s with
  | EmptyString => true
  | String a r => p a && all_chars p r
  end.

(** [VALIDATION_PATTERNS.key.test(s)], the pattern [/^[a-z][a-z0-9_-]*$/] *)
Definition key_pattern_test (s : string) : bool :=
  match s with
  | EmptyString => false
  | String a r => is_lower a && all_chars is_key_char r
  end.

Definition keyDescription : string :=
  "Key must start with lowercase letter and contain only lowercase letters, numbers, hyphens, or underscores".

(** What a validator returns: [true], or the message to show. *)
Inductive validation :=
| Valid
| Invalid (message : string).

Definition validateKey (value : string) : validation :=
  if String.eqb (trim value) "" then Invalid "Key is required"
  else if negb (key_pattern_test value) then Invalid keyDescription
  else Valid.

(** [(value) => value.trim() ? true : message], the validator of the name
    prompts. *)
Definition required (message value : string) : validation :=
  if String.eqb (trim value) "" then Invalid message else Valid.

(** [s.charAt(0)] and [s.slice(1)] *)
Definition charAt0 (s : string) : string :=
  match s with
  | EmptyString => EmptyString
  | String a _ => String a EmptyString
  end.

Definition slice1 (s : string) : string :=
  match s with
  | EmptyString => EmptyString
  | String _ r => r
  end.

(** [s.replace(/-/g, ' ')] *)
Fixpoint replace_dashes (s : string) : string :=
  match s with
  | EmptyString => EmptyString
  | String a r =>
      String (if (Ascii.nat_of_ascii a =? 45)%nat then Ascii.ascii_of_nat 32 else a)
             (replace_dashes r)
  end.

Section DisplayNames.

(** [String.prototype.toUpperCase], a builtin of the host. *)
Variable toUpperCase : string → string.

Definition capitalize (str : string) : string :=
  toUpperCase (charAt0 str) +:+ slice1 str.

Definition keyToDisplayName (key : string) : string :=
  capitalize (replace_dashes key).

End DisplayNames.

(** The upper-case letter of a lower-case ASCII letter, and a
    [toUpperCase] for strings of ASCII characters. *)
Definition upper (a : Ascii.ascii) : Ascii.ascii :=
  Ascii.ascii_of_nat (Ascii.nat_of_ascii a - 32).

Fixpoint ascii_toUpperCase (s : string) : string :=
  match s with
  | EmptyString => EmptyString
  | String a r => String (if is_lower a then upper a else a) (ascii_toUpperCase r)
  end.

Section Client.

Context {World : Type}.
Variable fetch : World → request → outcome * World.
Variable JSON_parse : string → option value.
Variable JSON_stringify : value → option string.
Variable config : Config.

Abbreviation Async := (M World).

Definition do_fetch (rq : request) : Async outcome := fun s =>
  let (o, w) := fetch (world s) rq in
  (Ok o, State w (calls s) (logs s)).

(** *** [src/api.js] *)

Definition options_of (method : string) (data : value) (u : string) : request :=
  {| url := u;
     req_method := method;
     authorization := "Bearer " +:+ apiKey config;
     content_type := "application/json";
     body := if truthy data then JSON_stringify data else None |}.

Definition jsonBody_of (text : string) : value :=
  if String.eqb text "" then VNull else default VNull (JSON_parse text).

(** The default parameter [data = null]. *)
Definition default_null (data : value) : value :=
  match data with
  | VUndef => VNull
  | _ => data
  end.

Definition permitApi (method endpoint : string) (data : value) : Async result :=
  let data := default_null data in
  record_call (Call method endpoint data);;
  response ← do_fetch (options_of method data (apiUrl config +:+ endpoint));
  match response with
  | Response st text =>
      let jsonBody := jsonBody_of text in
      if response_ok st then
        mret {| success := true; data := jsonBody; status := Some st;
                exists_ := None; error := None |}
      else if (st =? 409)%Z then
        mret {| success := true; data := jsonBody; status := Some st;
                exists_ := Some true; error := None |}
      else
        log Warning ("API call failed with HTTP " +:+ pretty st +:+ ": " +:+ text);;
        mret {| success := false; data := jsonBody; status := Some st;
                exists_ := None; error := None |}
  | Failed name message =>
      (if String.eqb name "AbortError"
       then log Error ("API call timed out after " +:+ pretty TIMEOUT_MS +:+ "ms")
       else log Error ("API call failed: " +:+ message));;
      mret {| success := false; data := VUndef; status := None;
              exists_ := None; error := Some message |}
  end.

Definition schema (suffix : string) : string :=
  "/schema/" +:+ projectId config +:+ "/" +:+ envId config +:+ suffix.

Definition facts (suffix : string) : string :=
  "/facts/" +:+ projectId config +:+ "/" +:+ envId config +:+ suffix.

(** *** [src/resources.js] *)

Definition createResource (resource : value) : Async bool :=
  k ← lift (get resource "key");
  log Info ("Creating resource: " +:+ toString k);;
  result ← permitApi "POST" (schema "/resources") resource;
  if success result then
    k ← lift (get resource "key");
    log Success ("Resource '" +:+ toString k +:+ "' created/exists");;
    mret true
  else
    k ← lift (get resource "key");
    log Warning ("Failed to create resource '" +:+ toString k +:+ "'");;
    mret false.

Definition getResource (resourceKey : value) : Async value :=
  result ← permitApi "GET" (schema ("/resources/" +:+ toString resourceKey)) VUndef;
  mret (if success result then data result else VNull).

Definition listResources : Async value :=
  result ← permitApi "GET" (schema "/resources") VUndef;
  mret (if success result then data result else VArr []).

Definition deleteResource (resourceKey : value) : Async bool :=
  result ← permitApi "DELETE" (schema ("/resources/" +:+ toString resourceKey)) VUndef;
  mret (success result || status_is result 404).

(** *** [src/roles.js] *)

Definition createRole (role : value) : Async bool :=
  k ← lift (get role "key");
  log Info ("Creating role: " +:+ toString k);;
  result ← permitApi "POST" (schema "/roles") role;
  if success result then
    k ← lift (get role "key");
    log Success ("Role '" +:+ toString k +:+ "' created/exists");;
    mret true
  else
    k ← lift (get role "key");
    log Warning ("Failed to create role '" +:+ toString k +:+ "'");;
    mret false.

Definition assignPermissionToRole (roleKey resource action : value) : Async bool :=
  result ← permitApi "POST"
    (schema ("/roles/" +:+ toString roleKey +:+ "/permissions"))
    (VObj {[ "permission" := VStr (toString resource +:+ ":" +:+ toString action) ]});
  mret (success result).

Definition listRoles : Async value :=
  result ← permitApi "GET" (schema "/roles") VUndef;
  mret (if success result then data result else VArr []).

Definition deleteRole (roleKey : value) : Async bool :=
  result ← permitApi "DELETE" (schema ("/roles/" +:+ toString roleKey)) VUndef;
  mret (success result || status_is result 404).

(** *** [src/abac.js] *)

Definition listUserAttributes : Async value :=
  result ← permitApi "GET" (schema "/resources/__user/attributes") VUndef;
  mret (if success result then data result else VArr []).

Definition createUserAttribute (attributeConfig : value) : Async bool :=
  k ← lift (get attributeConfig "key");
  log Info ("Creating user attribute: " +:+ toString k);;
  k ← lift (get attributeConfig "key");
  t ← lift (get attributeConfig "type");
  d ← lift (get attributeConfig "description");
  result ← permitApi "POST" (schema "/resources/__user/attributes")
    (VObj (<["description" := d]> (<["type" := t]> {[ "key" := k ]})));
  if success result then
    k ← lift (get attributeConfig "key");
    log Success ("User attribute '" +:+ toString k +:+ "' created");;
    mret true
  else
    k ← lift (get attributeConfig "key");
    log Warning ("Failed to create user attribute '" +:+ toString k +:+ "'");;
    mret false.

Definition createUserSet (userSet : value) : Async bool :=
  k ← lift (get userSet "key");
  log Info ("Creating user set: " +:+ toString k);;
  result ← permitApi "POST" (schema "/condition_sets")
    (VObj (<["type" := VStr CONDITION_SET_TYPES_USER_SET]> (spread userSet)));
  if success result then
    k ← lift (get userSet "key");
    log Success ("User set '" +:+ toString k +:+ "' created/exists");;
    mret true
  else
    k ← lift (get userSet "key");
    log Warning ("Failed to create user set '" +:+ toString k +:+ "'");;
    mret false.

Definition createResourceSet (resourceSet : value) : Async bool :=
  k ← lift (get resourceSet "key");
  log Info ("Creating resource set: " +:+ toString k);;
  result ← permitApi "POST" (schema "/condition_sets")
    (VObj (<["type" := VStr CONDITION_SET_TYPES_RESOURCE_SET]> (spread resourceSet)));
  if success result then
    k ← lift (get resourceSet "key");
    log Success ("Resource set '" +:+ toString k +:+ "' created/exists");;
    mret true
  else
    k ← lift (get resourceSet "key");
    log Warning ("Failed to create resource set '" +:+ toString k +:+ "'");;
    mret false.

Definition set_rule (userSet resourceSet permission : value) : value :=
  VObj (<["permission" := permission]>
          (<["resource_set" := resourceSet]> {[ "user_set" := userSet ]})).

Definition createSetRule (userSet resourceSet permission : value) : Async bool :=
  result ← permitApi "POST" (facts "/set_rules")
    (set_rule userSet resourceSet permission);
  mret (success result).

Definition listConditionSets : Async value :=
  result ← permitApi "GET" (schema "/condition_sets") VUndef;
  mret (if success result then data result else VArr []).

Definition listSetRules : Async value :=
  result ← permitApi "GET" (facts "/set_rules") VUndef;
  mret (if success result then data result else VArr []).

(** *** [src/reset.js] *)

Definition deleteSetRules : Async unit :=
  log Info "Deleting set rules...";;
  result ← permitApi "GET" (facts "/set_rules") VUndef;
  if negb (success result) || negb (truthy (data result)) then
    log Warning "Could not retrieve set rules"
  else
    rules ← lift (iter (data result));
    deleted ← foldM (fun (deleted : Z) rule =>
        us ← lift (get rule "user_set");
        rs ← lift (get rule "resource_set");
        p ← lift (get rule "permission");
        deleteResult ← permitApi "DELETE" (facts "/set_rules") (set_rule us rs p);
        mret (if success deleteResult then (deleted + 1)%Z else deleted))
      rules 0%Z;
    log Success ("  Deleted " +:+ pretty deleted +:+ " set rules").

Definition has_type (ty : string) (cs : value) : res bool :=
  t ← get cs "type"; Ok (str_eq t ty).

Definition deleteConditionSets : Async unit :=
  log Info "Deleting condition sets...";;
  conditionSets ← listConditionSets;
  empty ← lift (none_or_empty conditionSets);
  if empty : bool then
    log Info "  No condition sets found"
  else
    resourceSets ← lift (array_filter conditionSets
                           (has_type CONDITION_SET_TYPES_RESOURCE_SET));
    forOf resourceSets (fun rs =>
      k ← lift (get rs "key");
      log Info ("  Deleting resource set: " +:+ toString k);;
      result ← permitApi "DELETE" (schema ("/condition_sets/" +:+ toString k)) VUndef;
      if success result then
        log Success ("  Resource set '" +:+ toString k +:+ "' deleted")
      else if status_is result 404 then
        log Info ("  Resource set '" +:+ toString k +:+ "' not found (already deleted)")
      else
        log Warning ("  Failed to delete resource set '" +:+ toString k +:+ "'"));;
    userSets ← lift (array_filter conditionSets
                       (has_type CONDITION_SET_TYPES_USER_SET));
    forOf userSets (fun us =>
      k ← lift (get us "key");
      log Info ("  Deleting user set: " +:+ toString k);;
      result ← permitApi "DELETE" (schema ("/condition_sets/" +:+ toString k)) VUndef;
      if success result then
        log Success ("  User set '" +:+ toString k +:+ "' deleted")
      else if status_is result 404 then
        log Info ("  User set '" +:+ toString k +:+ "' not found (already deleted)")
      else
        log Warning ("  Failed to delete user set '" +:+ toString k +:+ "'"));;
    log Success "Condition sets deleted".

Definition deleteUserAttributes (attributeKey : value) : Async unit :=
  let attributeKey :=
    match attributeKey with
    | VUndef => VStr DEFAULT_USER_ATTRIBUTE_key
    | _ => attributeKey
    end in
  log Info "Deleting user attributes...";;
  log Info ("  Deleting '" +:+ toString attributeKey +:+ "' attribute from __user");;
  result ← permitApi "DELETE"
    (schema ("/resources/__user/attributes/" +:+ toString attributeKey)) VUndef;
  (if success result then
     log Success ("  Attribute '" +:+ toString attributeKey +:+ "' deleted")
   else if status_is result 404 then
     log Info ("  Attribute '" +:+ toString attributeKey +:+ "' not found (already deleted)")
   else
     log Warning ("  Failed to delete '" +:+ toString attributeKey +:+ "' attribute"));;
  log Success "User attributes deleted".

Definition deleteRoles : Async unit :=
  log Info "Deleting roles...";;
  roles ← listRoles;
  empty ← lift (none_or_empty roles);
  if empty : bool then
    log Info "  No roles found"
  else
    items ← lift (iter roles);
    forOf items (fun role =>
      k ← lift (get role "key");
      if includes PROTECTED_ROLES k then
        log Info ("  Skipping built-in role: " +:+ toString k)
      else
        log Info ("  Deleting role: " +:+ toString k);;
        result ← permitApi "DELETE" (schema ("/roles/" +:+ toString k)) VUndef;
        if success result then
          log Success ("  Role '" +:+ toString k +:+ "' deleted")
        else if status_is result 404 then
          log Info ("  Role '" +:+ toString k +:+ "' not found (already deleted)")
        else
          log Warning ("  Failed to delete role '" +:+ toString k +:+ "'"));;
    log Success "All roles deleted".

Definition deleteResources : Async unit :=
  log Info "Deleting resources...";;
  resources ← listResources;
  empty ← lift (none_or_empty resources);
  if empty : bool then
    log Info "  No resources found"
  else
    items ← lift (iter resources);
    forOf items (fun resource =>
      k ← lift (get resource "key");
      if includes PROTECTED_RESOURCES k then
        log Info ("  Skipping built-in resource: " +:+ toString k)
      else
        log Info ("  Deleting resource: " +:+ toString k);;
        ok ← deleteResource k;
        if ok : bool then
          log Success ("  Resource '" +:+ toString k +:+ "' deleted")
        else
          log Warning ("  Failed to delete resource '" +:+ toString k +:+ "'"));;
    log Success "All resources deleted".

Definition deleteDefaultTenant (tenantKey : value) : Async unit :=
  let tenantKey :=
    match tenantKey with
    | VUndef => VStr DEFAULT_TENANT
    | _ => tenantKey
    end in
  log Info "Deleting default tenant...";;
  result ← permitApi "DELETE" (facts ("/tenants/" +:+ toString tenantKey)) VUndef;
  if success result then
    log Success ("Default tenant '" +:+ toString tenantKey +:+ "' deleted")
  else if status_is result 404 then
    log Info ("Default tenant '" +:+ toString tenantKey +:+ "' not found (already deleted)")
  else
    log Warning "Could not delete default tenant".

Definition resetAll : Async unit :=
  log Info "Resetting all Permit.io configuration...";;
  blank;;
  deleteSetRules;;
  blank;;
  deleteConditionSets;;
  blank;;
  deleteUserAttributes VUndef;;
  blank;;
  deleteRoles;;
  blank;;
  deleteResources;;
  blank;;
  deleteDefaultTenant VUndef;;
  blank;;
  log Success "All Permit.io configuration has been reset!".

Definition resetRbac : Async unit :=
  log Info "Resetting RBAC configuration...";;
  blank;;
  deleteRoles;;
  blank;;
  deleteResources;;
  blank;;
  log Success "RBAC configuration has been reset!".

Definition resetAbac : Async unit :=
  log Info "Resetting ABAC configuration...";;
  blank;;
  deleteSetRules;;
  blank;;
  deleteConditionSets;;
  blank;;
  deleteUserAttributes VUndef;;
  blank;;
  log Success "ABAC configuration has been reset!".

Definition resetResources : Async unit :=
  log Info "Resetting resources...";;
  blank;;
  deleteResources;;
  blank;;
  log Success "Resources have been reset!".

Definition resetRoles : Async unit :=
  log Info "Resetting roles...";;
  blank;;
  deleteRoles;;
  blank;;
  log Success "Roles have been reset!".

(** *** [src/horaion-setup.js] *)

(** [createOrUpdateUserSet]; [updated] stands for the early [return true]
    of the update branch. *)
Definition createOrUpdateUserSet (userSet : value) : Async bool :=
  createResult ← permitApi "POST" (schema "/condition_sets")
    (VObj (<["type" := VStr "userset"]> (spread userSet)));
  if success createResult then
    k ← lift (get userSet "key");
    log Success ("  Created user set: " +:+ toString k);;
    mret true
  else
    updated ←
      (if status_is createResult 409 then
         k ← lift (get userSet "key");
         c ← lift (get userSet "conditions");
         updateResult ← permitApi "PATCH"
           (schema ("/condition_sets/" +:+ toString k))
           (VObj {[ "conditions" := c ]});
         if success updateResult then
           k ← lift (get userSet "key");
           log Success ("  Updated user set: " +:+ toString k);;
           mret true
         else mret false
       else mret false);
    if updated : bool then mret true
    else
      k ← lift (get userSet "key");
      log Warning ("  Failed to create/update user set: " +:+ toString k);;
      mret false.

(** [JSON.stringify(us.conditions).includes(needle)]; [JSON.stringify]
    yields [undefined] for some arguments, and calling a method on it
    throws. *)
Definition condition_includes (needle : string) (us : value) : res bool :=
  c ← get us "conditions";
  match JSON_stringify c with
  | Some condition => Ok (str_includes condition needle)
  | None => Throw TypeError
  end.

Definition verifySetup : Async unit :=
  log Info "Verifying setup...";;
  blank;;
  conditionSets ← listConditionSets;
  userSets ← lift (array_filter conditionSets (has_type "userset"));
  log Info ("User Sets (" +:+ pretty (Z.of_nat (length userSets)) +:+ "):");;
  forOf userSets (fun us =>
    usesUserGroups ← lift (condition_includes "user.groups" us);
    let status := if usesUserGroups : bool
                  then "(user.groups)" else "(subject.groups - WRONG!)" in
    k ← lift (get us "key");
    log Info ("  - " +:+ toString k +:+ " " +:+ status));;
  blank;;
  setRules ← listSetRules;
  len ← lift (get setRules "length");
  log Info ("Set Rules (" +:+ toString len +:+ "):");;
  rules ← lift (iter setRules);
  forOf rules (fun sr =>
    u ← lift (get sr "user_set");
    p ← lift (get sr "permission");
    log Info ("  - " +:+ toString u +:+ " -> " +:+ toString p));;
  blank;;
  wrongConditions ← lift (filterR (condition_includes "subject.groups") userSets);
  if (0 <? Z.of_nat (length wrongConditions))%Z then
    log Warning "WARNING: Some user sets use subject.groups instead of user.groups!";;
    log Warning "These will NOT work with the Horaion application.";;
    forOf wrongConditions (fun us =>
      k ← lift (get us "key");
      log Warning ("  - " +:+ toString k))
  else
    log Success "All user sets use correct user.groups condition!".

(** *** [src/api.js], the health probe *)

(** [fetch(url, { signal })]: the default method and no header of the
    caller's, written as empty strings. *)
Definition health_request : request :=
  {| url := pdpUrl config +:+ "/health";
     req_method := "GET";
     authorization := "";
     content_type := "";
     body := None |}.

Definition checkEdgePdpHealth : Async bool :=
  response ← do_fetch health_request;
  match response with
  | Response st text =>
      mret (str_includes text "healthy" || str_includes text "ok" || response_ok st)
  | Failed _ _ => mret false
  end.

(** *** [src/verify.js] *)

Section Verify.

(** A builtin of the host that the embedding does not spell out: whether a
    string, converted to a number, is greater than zero. *)
Variable string_gt0 : string → bool.

(** [try { m } catch { handler }] *)
Definition try_catch {A} (m : Async A) (handler : exn → Async A) : Async A := fun s =>
  match m s with
  | (Ok a, s') => (Ok a, s')
  | (Throw e, s') => handler e s'
  end.

(** [v.forEach(cb)]: only arrays have the method. *)
Definition forEach (v : value) (cb : value → Async unit) : Async unit :=
  match v with
  | VArr l => forOf l cb
  | _ => lift (Throw TypeError)
  end.

(** [v > 0] *)
Definition gt0 (v : value) : bool :=
  match v with
  | VUndef | VNull | VObj _ => false
  | VBool b => b
  | VNum n => (0 <? n)%Z
  | VStr s => string_gt0 s
  | VArr l => string_gt0 (toString (VArr l))
  end.

(** [v && v.length > 0] *)
Definition has_items (v : value) : res bool :=
  if truthy v then len ← get v "length"; Ok (gt0 len) else Ok false.

(** [v?.filter(cb) || []] *)
Definition filter_or_empty (v : value) (cb : value → res bool) : res (list value) :=
  match v with
  | VUndef | VNull => Ok []
  | _ => array_filter v cb
  end.

(** [v?.length ?? '?'] *)
Definition length_or_unknown (v : value) : res value :=
  match v with
  | VUndef | VNull => Ok (VStr "?")
  | _ =>
      len ← get v "length";
      Ok (match len with
          | VUndef | VNull => VStr "?"
          | _ => len
          end)
  end.

Definition print_item (item : value) : Async unit :=
  k ← lift (get item "key");
  n ← lift (get item "name");
  log Console ("  - " +:+ toString k +:+ ": " +:+ toString n).

(** [verifySetup] of [src/verify.js], the report of the interactive tool. *)
Definition verify_verifySetup : Async unit :=
  log Info "Verifying setup...";;
  blank;;
  log Info "Roles:";;
  try_catch
    (roles ← listRoles;
     some ← lift (has_items roles);
     if some : bool then forEach roles print_item
     else log Warning "No roles found")
    (fun _ => log Warning "Could not list roles");;
  blank;;
  log Info "Resources:";;
  try_catch
    (resources ← listResources;
     some ← lift (has_items resources);
     if some : bool then forEach resources print_item
     else log Warning "No resources found")
    (fun _ => log Warning "Could not list resources");;
  blank;;
  log Info "User Sets:";;
  try_catch
    (conditionSets ← listConditionSets;
     userSets ← lift (filter_or_empty conditionSets (has_type "userset"));
     if (0 <? Z.of_nat (length userSets))%Z then forOf userSets print_item
     else log Warning "No user sets found")
    (fun _ => log Warning "Could not list user sets");;
  blank;;
  log Info "Resource Sets:";;
  try_catch
    (conditionSets ← listConditionSets;
     resourceSets ← lift (filter_or_empty conditionSets (has_type "resourceset"));
     if (0 <? Z.of_nat (length resourceSets))%Z then forOf resourceSets print_item
     else log Warning "No resource sets found")
    (fun _ => log Warning "Could not list resource sets");;
  blank;;
  log Info "Set Rules:";;
  try_catch
    (rules ← listSetRules;
     ruleCount ← lift (length_or_unknown rules);
     log Console ("  Total set rules: " +:+ toString ruleCount))
    (fun _ => log Warning "Could not list set rules");;
  blank;;
  log Success "Setup verification complete".

End Verify.

(** *** [src/horaion-setup.js], the setup steps *)

Section Setup.

(** [String.prototype.toUpperCase] and [toLowerCase], builtins of the
    host. *)
Variable toUpperCase : string → string.
Variable toLowerCase : string → string.

(** The entry [actions[action]] that [setupResources] builds. *)
Definition action_entry (resource : resource_preset) (action : string) : value :=
  let label := toUpperCase (charAt0 action) +:+ slice1 action in
  VObj (<["description" := VStr (label +:+ " " +:+ toLowerCase (rp_name resource))]>
          {[ "name" := VStr label ]}).

(** The object [actions] after the inner loop. *)
Definition actions_of (resource : resource_preset) : gmap string value :=
  foldl (fun actions action => <[action := action_entry resource action]> actions)
        ∅ (rp_actions resource).

Definition resource_payload (resource : resource_preset) : value :=
  VObj (<["actions" := VObj (actions_of resource)]>
          (<["description" := VStr (rp_description resource)]>
             (<["name" := VStr (rp_name resource)]>
                {[ "key" := VStr (rp_key resource) ]}))).

Definition setupResources : Async unit :=
  log Info "Setting up resources...";;
  forOf RESOURCES (fun resource =>
    createResource (resource_payload resource);;
    mret tt);;
  log Success "Resources setup complete";;
  blank.

Definition setupUserSets : Async unit :=
  log Info "Setting up user sets (ABAC)...";;
  log Info "Using user.groups for condition matching (NOT subject.groups)";;
  blank;;
  forOf USER_SETS (fun userSet =>
    createOrUpdateUserSet userSet;;
    mret tt);;
  log Success "User sets setup complete";;
  blank.

Definition setupSetRules : Async unit :=
  log Info "Setting up set rules (permissions)...";;
  forOf SET_RULES (fun rule =>
    forOf (rl_actions rule) (fun action =>
      let permission := rl_resource rule +:+ ":" +:+ action in
      ok ← createSetRule (VStr (rl_userSet rule))
              (VStr ("__autogen_" +:+ rl_resource rule)) (VStr permission);
      if ok : bool then
        log Success ("  " +:+ rl_userSet rule +:+ " -> " +:+ permission)
      else
        log Info ("  " +:+ rl_userSet rule +:+ " -> " +:+ permission +:+
                  " (exists or failed)")));;
  log Success "Set rules setup complete";;
  blank.

End Setup.

(** ** Vocabulary of the specifications *)

(** The result [permitApi] builds from what [fetch] produced. *)
Definition result_of (o : outcome) : result :=
  match o with
  | Response st text =>
      {| success := response_ok st || (st =? 409)%Z;
         data := jsonBody_of text;
         status := Some st;
         exists_ := if response_ok st then None
                    else if (st =? 409)%Z then Some true else None;
         error := None |}
  | Failed name message =>
      {| success := false; data := VUndef; status := None;
         exists_ := None; error := Some message |}
  end.

(** The lines [permitApi] logs itself. *)
Definition transport_log (o : outcome) : list (level * string) :=
  match o with
  | Response st text =>
      if response_ok st || (st =? 409)%Z then []
      else [(Warning, "API call failed with HTTP " +:+ pretty st +:+ ": " +:+ text)]
  | Failed name message =>
      [(Error, if String.eqb name "AbortError"
               then "API call timed out after " +:+ pretty TIMEOUT_MS +:+ "ms"
               else "API call failed: " +:+ message)]
  end.

Definition sent (method endpoint : string) (data : value) : request :=
  options_of method (default_null data) (apiUrl config +:+ endpoint).

Definition is_ok {A} (r : res A) : bool :=
  match r with
  | Ok _ => true
  | Throw _ => false
  end.

(** [emits P Q m]: from any state, [m] only appends transport calls, each
    of them satisfies [P], and a value it returns satisfies [Q]. *)
Definition emits {A} (P : call → Prop) (Q : A → Prop) (m : Async A) : Prop :=
  ∀ s, ∃ t, calls (m s).2 = calls s ++ t ∧ Forall P t ∧
            ∀ a, (m s).1 = Ok a → Q a.

(** A value a [list...] function can return: the fallback [[]] or the
    decoded body of a response. *)
Definition listed (v : value) : Prop :=
  v = VArr [] ∨ ∃ text, v = jsonBody_of text.

Definition GET (endpoint : string) : call := Call "GET" endpoint VNull.
Definition DELETE (endpoint : string) : call := Call "DELETE" endpoint VNull.

(** A value whose properties can be read: anything but [undefined] and
    [null]. *)
Definition readable (v : value) : Prop := v ≠ VUndef ∧ v ≠ VNull.

(** [v.k] for a readable [v]. *)
Definition prop (v : value) (k : string) : value :=
  match get v k with
  | Ok x => x
  | Throw _ => VUndef
  end.

(** What a [list...] function returns in a given world. *)
Definition list_value (endpoint : string) (w : World) : value :=
  let r := result_of (fetch w (sent "GET" endpoint VUndef)).1 in
  if success r then data r else VArr [].

Definition delete_rule_call (rule : value) : call :=
  Call "DELETE" (facts "/set_rules")
    (set_rule (prop rule "user_set") (prop rule "resource_set") (prop rule "permission")).

Definition delete_condition_set_call (cs : value) : call :=
  DELETE (schema ("/condition_sets/" +:+ toString (prop cs "key"))).

Definition delete_role_call (role : value) : call :=
  DELETE (schema ("/roles/" +:+ toString (prop role "key"))).

Definition delete_resource_call (resource : value) : call :=
  DELETE (schema ("/resources/" +:+ toString (prop resource "key"))).

Definition typed (ty : string) (cs : value) : bool := str_eq (prop cs "type") ty.

Definition unprotected (protected : list string) (item : value) : bool :=
  negb (includes protected (prop item "key")).

(** What the remote answers to a recorded call, and the world it is in
    after a sequence of calls. *)
Definition respond (w : World) (c : call) : outcome * World :=
  fetch w (sent (c_method c) (c_endpoint c) (c_data c)).

Definition replay (w : World) (t : list call) : World :=
  foldl (fun w c => (respond w c).2) w t.

Definition readableb (v : value) : bool :=
  match v with
  | VUndef | VNull => false
  | _ => true
  end.

(** The items a loop that reads a property of each item gets through: it
    throws at the first item that is [null] or [undefined]. *)
Fixpoint readable_prefix (items : list value) : list value :=
  match items with
  | [] => []
  | item :: rest => if readableb item then item :: readable_prefix rest else []
  end.

(** The items a [for...of] loop over [v] visits; none when [v] cannot be
    iterated. *)
Definition iterable (v : value) : list value :=
  match iter v with
  | Ok items => items
  | Throw _ => []
  end.

(** The items [v.filter(cb)] hands on when [cb] reads a property of each
    item: all of them, or none when the call throws. *)
Definition filterable (v : value) : list value :=
  match v with
  | VArr items => if forallb readableb items then items else []
  | _ => []
  end.

(** [!v || v.length === 0] holds. *)
Definition is_empty (v : value) : bool :=
  negb (truthy v) || num_eq (prop v "length") 0.

(** A [for...of] loop over [v] that reads a property of each item runs to
    its end. *)
Definition loop_returns (v : value) : bool :=
  match iter v with
  | Ok items => forallb readableb items
  | Throw _ => false
  end.

(** [v.filter(cb)] returns, for a [cb] that reads a property of each
    item. *)
Definition filter_returns (v : value) : bool :=
  match v with
  | VArr items => forallb readableb items
  | _ => false
  end.

(** The stages of a reset. A stage that starts with the remote in world
    [w] makes the calls [t], computed from what the remote lists in [w],
    and returns or throws as [returned] says. *)
Definition set_rules_stage (w : World) (t : list call) (returned : bool) : Prop :=
  let rules := list_value (facts "/set_rules") w in
  t = GET (facts "/set_rules") ::
        map delete_rule_call (readable_prefix (iterable rules)) ∧
  returned = negb (truthy rules) || loop_returns rules.

Definition condition_sets_stage (w : World) (t : list call) (returned : bool) : Prop :=
  let conditionSets := list_value (schema "/condition_sets") w in
  t = GET (schema "/condition_sets") ::
        map delete_condition_set_call
          (List.filter (typed CONDITION_SET_TYPES_RESOURCE_SET) (filterable conditionSets)) ++
        map delete_condition_set_call
          (List.filter (typed CONDITION_SET_TYPES_USER_SET) (filterable conditionSets)) ∧
  returned = is_empty conditionSets || filter_returns conditionSets.

Definition attributes_stage (w : World) (t : list call) (returned : bool) : Prop :=
  t = [DELETE (schema ("/resources/__user/attributes/" +:+ DEFAULT_USER_ATTRIBUTE_key))] ∧
  returned = true.

Definition roles_stage (w : World) (t : list call) (returned : bool) : Prop :=
  let roles := list_value (schema "/roles") w in
  t = GET (schema "/roles") ::
        map delete_role_call
          (List.filter (unprotected PROTECTED_ROLES) (readable_prefix (iterable roles))) ∧
  returned = is_empty roles || loop_returns roles.

Definition resources_stage (w : World) (t : list call) (returned : bool) : Prop :=
  let resources := list_value (schema "/resources") w in
  t = GET (schema "/resources") ::
        map delete_resource_call
          (List.filter (unprotected PROTECTED_RESOURCES)
             (readable_prefix (iterable resources))) ∧
  returned = is_empty resources || loop_returns resources.

Definition tenant_stage (w : World) (t : list call) (returned : bool) : Prop :=
  t = [DELETE (facts ("/tenants/" +:+ DEFAULT_TENANT))] ∧ returned = true.

(** [runs_as T m]: from any state, [m] appends a sequence of calls that
    satisfies [T], whether it returns or throws. *)
Definition runs_as {A} (T : list call → Prop) (m : Async A) : Prop :=
  ∀ s, ∃ t, calls (m s).2 = calls s ++ t ∧ T t.

(** [performs t ok m]: from any state, [m] makes exactly the calls [t],
    leaves the remote as these calls leave it, and returns ([ok = true])
    or throws ([ok = false]). *)
Definition performs {A} (t : list call) (ok : bool) (m : Async A) : Prop :=
  ∀ s, is_ok (m s).1 = ok ∧ calls (m s).2 = calls s ++ t ∧
       world (m s).2 = replay (world s) t.

(** [stage_run stage m]: from any state, [m] runs as [stage] describes. *)
Definition stage_run {A} (stage : World → list call → bool → Prop) (m : Async A) : Prop :=
  ∀ s, ∃ t, calls (m s).2 = calls s ++ t ∧ world (m s).2 = replay (world s) t ∧
            stage (world s) t (is_ok (m s).1).

(** The calls [t] of a run through the given stages, from the world [w]:
    every stage is entered in the world the calls before it have left; the
    stage after it is entered exactly when it has returned; the run returns
    ([ok = true]) exactly when every stage has. *)
Fixpoint staged (stages : list (World → list call → bool → Prop)) (ok : bool)
    (w : World) (t : list call) : Prop :=
  match stages with
  | [] => ok = true ∧ t = []
  | stage :: rest =>
      ∃ t1 returned, stage w t1 returned ∧
        if returned : bool
        then ∃ t2, t = t1 ++ t2 ∧ staged rest ok (replay w t1) t2
        else ok = false ∧ t = t1
  end.


Definition staged_run {A} (stages : list (World → list call → bool → Prop))
    (m : Async A) : Prop :=
  ∀ s, ∃ t, calls (m s).2 = calls s ++ t ∧
            staged stages (is_ok (m s).1) (world s) t.

(** The endpoints that would delete a protected resource or role. *)
Definition protected_endpoints : list string :=
  map (fun k => schema ("/resources/" +:+ k)) PROTECTED_RESOURCES ++
  map (fun k => schema ("/roles/" +:+ k)) PROTECTED_ROLES.

Definition protected_delete (c : call) : Prop :=
  c_method c = "DELETE" ∧ c_endpoint c ∈ protected_endpoints.

(** From the world [w] on, whatever calls are made, no role and no
    resource that the remote lists has an array as its [key]. *)
Definition scalar_keys (w : World) : Prop :=
  ∀ t endpoint item ks,
    endpoint = schema "/roles" ∨ endpoint = schema "/resources" →
    item ∈ iterable (list_value endpoint (replay w t)) →
    get item "key" ≠ Ok (VArr ks).

(** What a stage never does: delete a protected resource or role. *)
Definition spares_protected (stage : World → list call → bool → Prop) : Prop :=
  ∀ w t returned, scalar_keys w → stage w t returned →
                  Forall (λ c, ¬ protected_delete c) t.

Definition digit (a : Ascii.ascii) : bool :=
  let n := Ascii.nat_of_ascii a in (48 <=? n)%nat && (n <=? 57)%nat.

Fixpoint digits (s : string) : bool :=
  match s with
  | EmptyString => true
  | String a s' => digit a && digits s'
  end.

(** The payload of a condition-set create: the caller's fields with the
    discriminant [ty] as [type]. *)
Definition typed_create (ty : string) (entity : value) (c : call) : Prop :=
  c_method c = "POST" ∧ c_endpoint c = schema "/condition_sets" ∧
  ∃ m, c_data c = VObj m ∧ m !! "type" = Some (VStr ty) ∧
       ∀ name, name ≠ "type" → m !! name = spread entity !! name.

(** The line a logging loop prints for an item, when reading the item does
    not throw. *)
Definition status_line (us : value) : res (level * string) :=
  usesUserGroups ← condition_includes "user.groups" us;
  k ← get us "key";
  Ok (Info, "  - " +:+ toString k +:+ " " +:+
            (if usesUserGroups : bool
             then "(user.groups)" else "(subject.groups - WRONG!)")).

Definition rule_line (sr : value) : res (level * string) :=
  u ← get sr "user_set";
  p ← get sr "permission";
  Ok (Info, "  - " +:+ toString u +:+ " -> " +:+ toString p).

Definition wrong_line (us : value) : res (level * string) :=
  k ← get us "key";
  Ok (Warning, "  - " +:+ toString k).




(** [does t m]: from any state, [m] returns after making exactly the
    calls [t]. *)
Definition does {A} (t : list call) (m : Async A) : Prop :=
  ∀ s, is_ok (m s).1 = true ∧ calls (m s).2 = calls s ++ t.

(** [needle] occurs in [text]. *)
Definition contains (text needle : string) : Prop :=
  ∃ p q, text = p +:+ (needle +:+ q).

Definition create_user_set_call (userSet : value) : call :=
  Call "POST" (schema "/condition_sets")
    (VObj (<["type" := VStr "userset"]> (spread userSet))).

Definition create_rule_call (rule : rule_preset) (action : string) : call :=
  Call "POST" (facts "/set_rules")
    (set_rule (VStr (rl_userSet rule))
       (VStr ("__autogen_" +:+ rl_resource rule))
       (VStr (rl_resource rule +:+ ":" +:+ action))).

(** A rule of the preset names a user set of the preset and actions of a
    resource of the preset. *)
Definition rule_in_preset (rule : rule_preset) : Prop :=
  VStr (rl_userSet rule) ∈ map (fun userSet => prop userSet "key") USER_SETS ∧
  Exists (fun resource => rp_key resource = rl_resource rule ∧
                          rl_actions rule ⊆ rp_actions resource) RESOURCES.

(** Two states with the same remote and the same calls made so far; their
    logs may differ. *)
Definition same_remote (s s' : state World) : Prop :=
  world s = world s' ∧ calls s = calls s'.

(** [agree m m']: from states with the same remote, [m] and [m'] end the
    same way (the same value, or the same exception), with the same remote
    and the same calls. *)
Definition agree {A} (m m' : Async A) : Prop :=
  ∀ s s', same_remote s s' →
          (m s).1 = (m' s').1 ∧ same_remote (m s).2 (m' s').2.

(** ** Running the monad *)

Lemma bind_run {A B} (m : Async A) (f : A → Async B) s :
  (m ≫= f) s =
  match m s with
  | (Ok a, s') => f a s'
  | (Throw e, s') => (Throw e, s')
  end.
Proof. reflexivity. Qed.

Lemma ret_run {A} (a : A) (s : state World) : (mret a : Async A) s = (Ok a, s).
Proof. reflexivity. Qed.

(** [permitApi] always resolves: it records the call, hands one request to
    [fetch] and turns whatever comes back into a result. *)
Lemma permitApi_run method endpoint data s :
  permitApi method endpoint data s =
  let ow := fetch (world s) (sent method endpoint data) in
  (Ok (result_of ow.1),
   State ow.2 (calls s ++ [Call method endpoint (default_null data)])
         (logs s ++ transport_log ow.1)).
Proof.
  unfold permitApi, sent, do_fetch, record_call, log, mbind, M_bind, mret, M_ret.
  cbn [world calls logs].
  destruct (fetch _ _) as [[st text|name message] w]; cbn [fst snd result_of transport_log].
  - destruct (response_ok st); cbn [orb]; [by rewrite app_nil_r|].
    destruct (st =? 409)%Z; [by rewrite app_nil_r|done].
  - by destruct (String.eqb name "AbortError").
Qed.

Ltac run :=
  unfold mbind, M_bind, mret, M_ret, lift, blank, log;
  repeat (rewrite ?permitApi_run; cbn beta iota zeta delta [fst snd world calls logs]).

(** ** Transport client *)

(** C1: whatever [fetch] produces, [permitApi] resolves to a result. A 2xx
    response gives [success = true]; a 409 gives [success = true] and
    [exists = true]; any other status gives [success = false]; in all three
    the parsed body is the [data] and the status is reported. A rejected
    [fetch] (network failure, or the abort of the timeout) gives
    [success = false] with the error message and no status. *)
Theorem permitApi_status_classification method endpoint body s :
  ∃ r s', permitApi method endpoint body s = (Ok r, s') ∧
    match (fetch (world s) (sent method endpoint body)).1 with
    | Response st text =>
        status r = Some st ∧ data r = jsonBody_of text ∧ error r = None ∧
        if decide (200 ≤ st ≤ 299)%Z then success r = true
        else if decide (st = 409%Z) then success r = true ∧ exists_ r = Some true
        else success r = false
    | Failed name message =>
        success r = false ∧ error r = Some message ∧ status r = None
    end.
Proof.
  rewrite permitApi_run. eexists _, _. split; [reflexivity|].
  cbn zeta. destruct (fetch _ _).1 as [st text|name message]; cbn; [|done].
  split_and!; [done..|]. unfold response_ok.
  repeat case_decide; subst; try done.
  - apply orb_true_iff. left. apply andb_true_iff. lia.
  - apply orb_false_iff. split; [apply andb_false_iff|]; lia.
Qed.

(** ** Entity repositories *)

Lemma status_is_spec r n : status_is r n = true ↔ status r = Some n.
Proof.
  unfold status_is. destruct (status r) as [st|]; [|done].
  rewrite Z.eqb_eq. split; congruence.
Qed.


(** C3: [deleteResource] and [deleteRole] return [true] exactly when the
    underlying transport call succeeded or answered status 404. *)
Theorem delete_true_iff_success_or_404 key s :
  (∃ r s',
     permitApi "DELETE" (schema ("/resources/" +:+ toString key)) VUndef s = (Ok r, s') ∧
     ∃ b, deleteResource key s = (Ok b, s') ∧
          (b = true ↔ success r = true ∨ status r = Some 404%Z)) ∧
  (∃ r s',
     permitApi "DELETE" (schema ("/roles/" +:+ toString key)) VUndef s = (Ok r, s') ∧
     ∃ b, deleteRole key s = (Ok b, s') ∧
          (b = true ↔ success r = true ∨ status r = Some 404%Z)).
Proof.
  unfold deleteResource, deleteRole. run.
  split; (eexists _, _; split; [reflexivity|]; eexists; split; [reflexivity|]);
    rewrite orb_true_iff, status_is_spec; done.
Qed.

(** The listings never throw, and fall back to the empty array when the
    transport call fails. *)
Lemma list_resolves s :
  let failed endpoint :=
    success (result_of (fetch (world s) (sent "GET" endpoint VUndef)).1) = false in
  (∃ v, (listResources s).1 = Ok v ∧ (failed (schema "/resources") → v = VArr [])) ∧
  (∃ v, (listRoles s).1 = Ok v ∧ (failed (schema "/roles") → v = VArr [])) ∧
  (∃ v, (listConditionSets s).1 = Ok v ∧ (failed (schema "/condition_sets") → v = VArr [])) ∧
  (∃ v, (listSetRules s).1 = Ok v ∧ (failed (facts "/set_rules") → v = VArr [])).
Proof.
  unfold listResources, listRoles, listConditionSets, listSetRules. run.
  split_and!; (eexists; split; [reflexivity|by intros ->]).
Qed.

(** ** Calls emitted by a computation *)

Lemma emits_ret {A} P (a : A) : emits P (λ x, x = a) (mret a).
Proof. intros s. exists []. cbn. rewrite app_nil_r. by split_and!; [| |intros ? [= <-]]. Qed.

Lemma emits_lift {A} P (r : res A) : emits P (λ a, r = Ok a) (lift r).
Proof. intros s. exists []. cbn. rewrite app_nil_r. by split_and!. Qed.

Lemma emits_log P lvl msg : emits P (λ _, True) (log lvl msg).
Proof. intros s. exists []. cbn. rewrite app_nil_r. by split_and!. Qed.

Lemma emits_post {A} P (Q R : A → Prop) (m : Async A) :
  emits P Q m → (∀ a, Q a → R a) → emits P R m.
Proof.
  intros Hm HQR s. destruct (Hm s) as (t & ? & ? & ?). exists t. naive_solver.
Qed.

Lemma emits_bind {A B} P (Q : A → Prop) (R : B → Prop) (m : Async A) (f : A → Async B) :
  emits P Q m → (∀ a, Q a → emits P R (f a)) → emits P R (m ≫= f).
Proof.
  intros Hm Hf s. rewrite bind_run.
  destruct (Hm s) as (t1 & E1 & F1 & Q1).
  destruct (m s) as [[a|e] s1]; cbn in *.
  - destruct (Hf a (Q1 a eq_refl) s1) as (t2 & E2 & F2 & Q2).
    exists (t1 ++ t2). rewrite E2, E1, app_assoc. split_and!; [done| |done].
    by apply Forall_app.
  - exists t1. by split_and!.
Qed.

Lemma emits_permitApi (P : call → Prop) method endpoint body :
  P (Call method endpoint (default_null body)) →
  emits P (λ r, ∃ o, r = result_of o) (permitApi method endpoint body).
Proof.
  intros HP s. rewrite permitApi_run. cbn. eexists [_]. split_and!; [done|by constructor|].
  intros a [= <-]. eauto.
Qed.

Lemma emits_foldM {A B} P (I : A → Prop) (f : B → A → Async B) l b :
  Forall I l →
  (∀ b x, I x → emits P (λ _, True) (f b x)) →
  emits P (λ _, True) (foldM f l b).
Proof.
  intros Hl Hf. revert b. induction Hl as [|x l Hx Hl IH]; intros b; cbn [foldM].
  - eapply emits_post; [apply emits_ret|done].
  - eapply emits_bind; [by apply Hf|]. intros b' _. apply IH.
Qed.

Lemma emits_forOf {A} P (I : A → Prop) (body : A → Async unit) l :
  Forall I l →
  (∀ x, I x → emits P (λ _, True) (body x)) →
  emits P (λ _, True) (forOf l body).
Proof. intros Hl Hb. eapply emits_foldM; [done|]. intros _ x. apply Hb. Qed.

Lemma result_of_listed o : success (result_of o) = true → listed (data (result_of o)).
Proof. destruct o; [right; eauto|done]. Qed.

Lemma filterR_spec {A} (cb : A → res bool) l l' :
  filterR cb l = Ok l' → Forall (λ x, x ∈ l ∧ cb x = Ok true) l'.
Proof.
  revert l'. induction l as [|x l IH]; intros l'; cbn.
  - intros [= <-]. constructor.
  - destruct (cb x) as [keep|] eqn:Ex; [|done]. cbn.
    destruct (filterR cb l) as [rest|]; [|done]. cbn. intros [= <-].
    specialize (IH _ eq_refl).
    assert (Forall (λ y, y ∈ x :: l ∧ cb y = Ok true) rest).
    { eapply Forall_impl; [done|]. intros y [??]. split; [by right|done]. }
    destruct keep; [|done]. constructor; [|done]. split; [by left|done].
Qed.

(** ** Calls of a computation that may throw *)

Lemma runs_log {A} (T : list call → Prop) lvl msg (m : Async A) :
  runs_as T m → runs_as T (log lvl msg;; m).
Proof.
  intros Hm s. rewrite bind_run. unfold log at 1. cbn iota beta.
  apply (Hm (State _ _ _)).
Qed.

(** A listing and what is done with the listed value. *)
Lemma runs_list_head {A} (T : list call → Prop) endpoint (f : value → Async A) :
  (∀ v, listed v → runs_as T (f v)) →
  runs_as (λ t, ∃ t', t = GET endpoint :: t' ∧ T t')
    (v ← (result ← permitApi "GET" endpoint VUndef;
          mret (if success result then data result else VArr []));
     f v).
Proof.
  intros Hf s. rewrite !bind_run, permitApi_run. cbn zeta iota beta.
  set (o := (fetch _ _).1). set (s1 := State _ _ _). rewrite ret_run.
  assert (Hl : listed (if success (result_of o) then data (result_of o) else VArr [])).
  { destruct (success _) eqn:E; [by apply result_of_listed|by left]. }
  destruct (Hf _ Hl s1) as (t & Et & HT).
  exists (GET endpoint :: t). rewrite Et. cbn. rewrite <- app_assoc. eauto.
Qed.

Lemma runs_as_post {A} (T T' : list call → Prop) (m : Async A) :
  runs_as T m → (∀ t, T t → T' t) → runs_as T' m.
Proof. intros Hm HT s. destruct (Hm s) as (t & ? & ?). eauto. Qed.

Lemma runs_lift {A B} (T : list call → Prop) (r : res A) (f : A → Async B) :
  T [] → (∀ a, r = Ok a → runs_as T (f a)) → runs_as T (lift r ≫= f).
Proof.
  intros Hnil Hf s. rewrite bind_run. unfold lift at 1.
  destruct r as [a|e]; [by apply Hf|]. exists []. cbn. by rewrite app_nil_r.
Qed.

Lemma emits_no_calls {A} (Q : A → Prop) (m : Async A) :
  emits (λ _, False) Q m → runs_as (λ t, t = []) m.
Proof.
  intros Hm s. destruct (Hm s) as (t & E & F & _). exists t. split; [done|].
  by destruct F.
Qed.

(** Steps through the binds, branches, log lines and property reads of a
    computation; a transport call or a loop is left to the caller. *)
Ltac emit :=
  repeat match goal with
  | |- emits _ _ (log _ _) => apply emits_log
  | |- emits _ (λ _, True) (mret _) => eapply emits_post; [apply emits_ret|done]
  | |- emits _ _ (lift _) => apply emits_lift
  | |- emits _ _ (if ?b then _ else _) => destruct b eqn:?
  | |- emits _ _ (_ ≫= _) => eapply emits_bind; [|intros ? ?]
  end;
  cbn beta in *.

(** ** Protected keys *)

Lemma string_app_inv_head (p a b : string) : p +:+ a = p +:+ b → a = b.
Proof. induction p as [|c p IH]; cbn; [done|]. intros [= ?]. auto. Qed.

Lemma schema_inj a b : schema a = schema b → a = b.
Proof.
  unfold schema. intros H.
  by do 4 apply string_app_inv_head in H.
Qed.

Lemma facts_not_schema a b : facts a ≠ schema b.
Proof. unfold facts, schema. cbn. discriminate. Qed.

Lemma pretty_N_go_digits x s : digits s = true → digits (pretty_N_go x s) = true.
Proof.
  revert s. induction (N.lt_wf_0 x) as [x _ IH]; intros s Hs.
  assert (x = 0 ∨ 0 < x)%N as [->|?] by lia.
  - by rewrite pretty_N_go_0.
  - rewrite pretty_N_go_step by done. apply IH.
    { by apply N.div_lt. }
    cbn [digits]. rewrite Hs, andb_true_r.
    unfold pretty_N_char. by repeat case_match.
Qed.

Lemma pretty_Z_digits (n : Z) :
  digits (pretty n) = true ∨ ∃ s, pretty n = "-" +:+ s.
Proof.
  destruct n as [|x|x]; [by left| |right; by eexists].
  left. unfold pretty, pretty_Z, pretty, pretty_positive, pretty, pretty_N.
  case_decide; [done|]. by apply pretty_N_go_digits.
Qed.

(** A key that [includes] does not find in a protected list does not
    print as one of its names either, unless it is an array. *)
Lemma toString_not_protected k :
  (∀ ks, k ≠ VArr ks) →
  (includes PROTECTED_ROLES k = false → toString k ∉ PROTECTED_ROLES) ∧
  (includes PROTECTED_RESOURCES k = false → toString k ∉ PROTECTED_RESOURCES).
Proof.
  intros Harr. unfold PROTECTED_ROLES, PROTECTED_RESOURCES.
  rewrite !elem_of_cons, !elem_of_nil.
  destruct k as [| |[]|n|str|ks|m]; cbn [toString includes existsb];
    try (split; intros _ H; by destruct_or!).
  - destruct (pretty_Z_digits n) as [Hd|[s Hs]].
    + split; intros _ H; destruct_or!; try done; by rewrite H in Hd.
    + rewrite Hs. split; intros _ H; by destruct_or!.
  - rewrite !orb_false_r. split.
    + intros [H1 H2]%orb_false_iff. apply String.eqb_neq in H1, H2.
      intros H; by destruct_or!.
    + intros H1%String.eqb_neq. intros H; by destruct_or!.
  - by destruct (Harr ks).
Qed.

Lemma protected_endpoint_inv e :
  e ∈ protected_endpoints →
  e = schema "/resources/__user" ∨ e = schema "/roles/admin" ∨ e = schema "/roles/viewer".
Proof.
  unfold protected_endpoints, PROTECTED_RESOURCES, PROTECTED_ROLES. cbn [map app].
  rewrite !elem_of_cons, elem_of_nil. tauto.
Qed.

(** ** Condition sets: payloads and create-or-update *)

Lemma typed_create_intro ty entity :
  typed_create ty entity
    (Call "POST" (schema "/condition_sets")
       (default_null (VObj (<["type" := VStr ty]> (spread entity))))).
Proof.
  split_and!; [done..|]. eexists. split_and!; [done| |].
  - apply lookup_insert_eq.
  - intros name Hne. by apply lookup_insert_ne.
Qed.

Lemma success_false_not_409 o :
  success (result_of o) = false → status_is (result_of o) 409 = false.
Proof.
  destruct o as [st text|]; [|done]. unfold status_is. cbn.
  by intros [_ ?]%orb_false_iff.
Qed.

(** C10: the payload that [createUserSet] posts has [type = 'userset'] and
    the one that [createResourceSet] posts has [type = 'resourceset'],
    whatever [type] the caller's object had; the other fields are the
    caller's. One call is made when the entity has properties to read, none
    when it is [null] or [undefined]. *)
Theorem create_set_payload_type entity s :
  (∃ t, calls (createUserSet entity s).2 = calls s ++ t ∧
        Forall (typed_create "userset" entity) t ∧
        length t = if is_ok (get entity "key") then 1%nat else 0%nat) ∧
  (∃ t, calls (createResourceSet entity s).2 = calls s ++ t ∧
        Forall (typed_create "resourceset" entity) t ∧
        length t = if is_ok (get entity "key") then 1%nat else 0%nat).
Proof.
  unfold createUserSet, createResourceSet,
    CONDITION_SET_TYPES_USER_SET, CONDITION_SET_TYPES_RESOURCE_SET.
  destruct (get entity "key") as [k|e] eqn:Hk; cycle 1.
  { run. cbn. split; exists []; by rewrite app_nil_r. }
  split; run;
    (eexists [_]; split_and!;
      [by destruct (success _)
      |constructor; [apply typed_create_intro|done]
      |done]).
Qed.

(** C9, as the code has it: [createOrUpdateUserSet] makes exactly one
    transport call, the POST that creates the user set, whatever the remote
    answers; since [permitApi] reports a 409 as a success, a conflict on
    create returns [true] at once and the PATCH of the update branch is
    never sent. *)
Theorem createOrUpdateUserSet_single_call userSet s :
  calls (createOrUpdateUserSet userSet s).2 =
  calls s ++ [Call "POST" (schema "/condition_sets")
                (VObj (<["type" := VStr "userset"]> (spread userSet)))].
Proof.
  unfold createOrUpdateUserSet. run.
  set (o := (fetch _ _).1).
  destruct (success (result_of o)) eqn:Hs.
  - by destruct (get userSet "key").
  - rewrite (success_false_not_409 _ Hs). cbn. by destruct (get userSet "key").
Qed.

(** ** Verification of the preset: the condition-scope lint *)

Lemma forOf_log_ok {A} (g : A → res (level * string)) (body : A → Async unit) l s s' :
  (∀ x s, body x s =
          match g x with
          | Ok e => (Ok tt, State (world s) (calls s) (logs s ++ [e]))
          | Throw e => (Throw e, s)
          end) →
  forOf l body s = (Ok tt, s') →
  ∃ es, Forall2 (λ x e, g x = Ok e) l es ∧
        s' = State (world s) (calls s) (logs s ++ es).
Proof.
  intros Hbody. unfold forOf. revert s.
  induction l as [|x l IH]; intros s; cbn [foldM].
  - intros [= <-]. exists []. rewrite app_nil_r. by destruct s.
  - rewrite bind_run, Hbody. destruct (g x) as [e|] eqn:Eg; [|done].
    intros (es & Hes & ->)%IH. exists (e :: es). cbn.
    rewrite <- app_assoc. split; [by constructor|done].
Qed.

Lemma filterR_complete {A} (cb : A → res bool) l l' x :
  filterR cb l = Ok l' → x ∈ l → cb x = Ok true → x ∈ l'.
Proof.
  revert l'. induction l as [|y l IH]; intros l'; cbn; [by intros _ ?%elem_of_nil|].
  destruct (cb y) as [keep|] eqn:Ey; [|done]. cbn.
  destruct (filterR cb l) as [rest|]; [|done]. cbn. intros [= <-].
  intros [->|Hin]%elem_of_cons Hx.
  - rewrite Hx in Ey. injection Ey as <-. by left.
  - specialize (IH _ eq_refl Hin Hx). destruct keep; [by right|done].
Qed.

Lemma Forall2_lookup_line {A B} (R : A → B → Prop) l es x :
  Forall2 R l es → x ∈ l → ∃ e, e ∈ es ∧ R x e.
Proof.
  induction 1 as [|y e l es Hy _ IH]; [by intros ?%elem_of_nil|].
  intros [->|Hin]%elem_of_cons.
  - exists e. split; [by left|done].
  - destruct (IH Hin) as (e' & ? & ?). exists e'. split; [by right|done].
Qed.

Lemma Forall2_line_source {A B} (R : A → B → Prop) l es e :
  Forall2 R l es → e ∈ es → ∃ x, x ∈ l ∧ R x e.
Proof.
  induction 1 as [|y e' l es Hy _ IH]; [by intros ?%elem_of_nil|].
  intros [->|Hin]%elem_of_cons.
  - exists y. split; [by left|done].
  - destruct (IH Hin) as (x & ? & ?). exists x. split; [by right|done].
Qed.

Lemma transport_log_not_item o k' : (Warning, "  - " +:+ k') ∉ transport_log o.
Proof.
  destruct o as [st text|name message]; cbn.
  - destruct (_ || _); [apply not_elem_of_nil|].
    intros [H|H%elem_of_nil]%elem_of_cons; [|done]. cbn in H. discriminate.
  - intros [H|H%elem_of_nil]%elem_of_cons; [|done]. discriminate.
Qed.

Lemma status_line_not_warning x msg : status_line x ≠ Ok (Warning, msg).
Proof.
  unfold status_line. destruct (condition_includes _ x); [|done]. cbn.
  by destruct (get x "key").
Qed.

Lemma rule_line_not_warning x msg : rule_line x ≠ Ok (Warning, msg).
Proof.
  unfold rule_line. destruct (get x "user_set"); [|done]. cbn.
  by destruct (get x "permission").
Qed.

Lemma wrong_line_inv x k' :
  wrong_line x = Ok (Warning, "  - " +:+ k') →
  ∃ key', get x "key" = Ok key' ∧ toString key' = k'.
Proof.
  unfold wrong_line. destruct (get x "key") as [key'|]; [|done]. cbn.
  intros [= H]. cbn in H. eauto.
Qed.

(** C8: in a verification report that completes, a user set whose
    serialized condition contains [subject.groups] is listed among the wrong
    ones; one whose serialized condition contains [user.groups] gets the
    status [(user.groups)]; and every key listed among the wrong ones is the
    key of a user set whose serialized condition contains [subject.groups],
    so a user set with [user.groups] only is not flagged. *)
Theorem verifySetup_condition_scope_lint s conditionSets userSets us k c condition
    (Hlist : (listConditionSets s).1 = Ok conditionSets)
    (Hsets : array_filter conditionSets (has_type "userset") = Ok userSets)
    (Hdone : (verifySetup s).1 = Ok tt)
    (Hus : us ∈ userSets)
    (Hkey : get us "key" = Ok k)
    (Hcond : get us "conditions" = Ok c)
    (Hser : JSON_stringify c = Some condition) :
  ∃ l, logs (verifySetup s).2 = logs s ++ l ∧
    (str_includes condition "subject.groups" = true →
       (Warning, "  - " +:+ toString k) ∈ l) ∧
    (str_includes condition "user.groups" = true →
       (Info, "  - " +:+ toString k +:+ " (user.groups)") ∈ l) ∧
    (∀ k', (Warning, "  - " +:+ k') ∈ l →
       ∃ us' key', us' ∈ userSets ∧ get us' "key" = Ok key' ∧ toString key' = k' ∧
                   condition_includes "subject.groups" us' = Ok true).
Proof.
  destruct (verifySetup s) as [r sf] eqn:Hrun. cbn in Hdone. subst r.
  cbn [snd]. revert Hlist Hrun. unfold verifySetup, listConditionSets. run.
  set (o1 := (fetch _ _).1). set (w1 := (fetch _ _).2).
  intros [= <-]. rewrite Hsets.
  match goal with |- context [forOf userSets ?b ?s1] =>
    destruct (forOf userSets b s1) as [[[]|e] s2] eqn:Hloop1; [|done] end.
  apply forOf_log_ok with (g := status_line) in Hloop1 as (es1 & Hes1 & ->); cycle 1.
  { intros x s0. unfold status_line. destruct (condition_includes _ x); [|done].
    cbn. by destruct (get x "key"). }
  unfold listSetRules. run.
  set (o2 := (fetch _ _).1). set (w2 := (fetch _ _).2).
  set (setRules := if success (result_of o2) then data (result_of o2) else VArr []).
  destruct (get setRules "length") as [len|]; [|done].
  destruct (iter setRules) as [rules|]; [|done].
  match goal with |- context [forOf rules ?b ?s1] =>
    destruct (forOf rules b s1) as [[[]|e] s3] eqn:Hloop2; [|done] end.
  apply forOf_log_ok with (g := rule_line) in Hloop2 as (es2 & Hes2 & ->); cycle 1.
  { intros x s0. unfold rule_line. destruct (get x "user_set"); [|done].
    cbn. by destruct (get x "permission"). }
  cbn [world calls logs].
  destruct (filterR _ userSets) as [wrong|] eqn:Hwrong; [|done].
  assert (Hstatus : str_includes condition "user.groups" = true →
            (Info, "  - " +:+ toString k +:+ " (user.groups)") ∈ es1).
  { intros Hug. destruct (Forall2_lookup_line _ _ _ _ Hes1 Hus) as (e & He & Hline).
    unfold status_line, condition_includes in Hline.
    rewrite Hcond in Hline. cbn in Hline. rewrite Hser in Hline. cbn in Hline.
    rewrite Hkey, Hug in Hline. cbn in Hline. by injection Hline as <-. }
  assert (Hflag : str_includes condition "subject.groups" = true → us ∈ wrong).
  { intros Hsg. eapply filterR_complete; [done..|].
    unfold condition_includes. rewrite Hcond. cbn. by rewrite Hser, Hsg. }
  assert (Hsource : ∀ es3 k', Forall2 (λ x e, wrong_line x = Ok e) wrong es3 →
            (Warning, "  - " +:+ k') ∈ es3 →
            ∃ us' key', us' ∈ userSets ∧ get us' "key" = Ok key' ∧
                        toString key' = k' ∧
                        condition_includes "subject.groups" us' = Ok true).
  { intros es3 k' Hes3 Hin.
    destruct (Forall2_line_source _ _ _ _ Hes3 Hin) as (us' & Hus' & Hline).
    apply wrong_line_inv in Hline as (key' & ? & ?).
    apply filterR_spec in Hwrong. rewrite Forall_forall in Hwrong.
    destruct (Hwrong us' Hus') as [??]. by exists us', key'. }
  assert (Hes1w : ∀ msg, (Warning, msg) ∉ es1).
  { intros msg Hin. destruct (Forall2_line_source _ _ _ _ Hes1 Hin) as (x & _ & Hx).
    by apply status_line_not_warning in Hx. }
  assert (Hes2w : ∀ msg, (Warning, msg) ∉ es2).
  { intros msg Hin. destruct (Forall2_line_source _ _ _ _ Hes2 Hin) as (x & _ & Hx).
    by apply rule_line_not_warning in Hx. }
  destruct (0 <? Z.of_nat (length wrong))%Z eqn:Hlen.
  - intros (es3 & Hes3 & ->)%(forOf_log_ok wrong_line); cycle 1.
    { intros x s0. unfold wrong_line. by destruct (get x "key"). }
    cbn [world calls logs]. eexists. split; [rewrite <- !app_assoc; reflexivity|].
    split_and!.
    + intros Hin%Hflag.
      destruct (Forall2_lookup_line _ _ _ _ Hes3 Hin) as (e & He & Hline).
      unfold wrong_line in Hline. rewrite Hkey in Hline. injection Hline as <-.
      rewrite !elem_of_app. tauto.
    + intros Hin%Hstatus. rewrite !elem_of_app. tauto.
    + intros k'. rewrite !elem_of_app, !list_elem_of_singleton.
      intros H. destruct_or!; try discriminate.
      * by apply transport_log_not_item in H.
      * by apply Hes1w in H.
      * by apply transport_log_not_item in H.
      * by apply Hes2w in H.
      * by eapply Hsource.
  - intros [= <-]. cbn [world calls logs].
    eexists. split; [rewrite <- !app_assoc; reflexivity|].
    assert (wrong = []) as ->.
    { destruct wrong; [done|]. apply Z.ltb_ge in Hlen. cbn [length] in Hlen. lia. }
    split_and!.
    + by intros Hin%Hflag%elem_of_nil.
    + intros Hin%Hstatus. rewrite !elem_of_app. tauto.
    + intros k'. rewrite !elem_of_app, !list_elem_of_singleton.
      intros H. destruct_or!; try discriminate.
      * by apply transport_log_not_item in H.
      * by apply Hes1w in H.
      * by apply transport_log_not_item in H.
      * by apply Hes2w in H.
Qed.

(** ** Computations that return *)

Lemma get_readable v k : readable v → get v k = Ok (prop v k).
Proof. intros [??]. unfold prop. by destruct v. Qed.











Lemma has_type_readable ty cs : readable cs → has_type ty cs = Ok (typed ty cs).
Proof. intros Hcs. unfold has_type, typed. by rewrite (get_readable _ _ Hcs). Qed.

Lemma filterR_has_type ty items :
  Forall readable items →
  filterR (has_type ty) items = Ok (List.filter (typed ty) items).
Proof.
  induction 1 as [|cs items Hcs _ IH]; [done|]. cbn [filterR List.filter].
  rewrite (has_type_readable _ _ Hcs), IH. cbn. by destruct (typed ty cs).
Qed.













(** ** Computations with a fixed sequence of calls *)

Lemma does_eq {A} t t' (m : Async A) : does t m → t = t' → does t' m.
Proof. by intros ? <-. Qed.

Lemma does_ret {A} (a : A) : does [] (mret a : Async A).
Proof. intros s. cbn. by rewrite app_nil_r. Qed.

Lemma does_log lvl msg : does [] (log lvl msg : Async unit).
Proof. intros s. cbn. by rewrite app_nil_r. Qed.

Lemma does_lift {A} (a : A) : does [] (lift (Ok a) : Async A).
Proof. intros s. cbn. by rewrite app_nil_r. Qed.

Lemma does_permitApi method endpoint body :
  does [Call method endpoint (default_null body)] (permitApi method endpoint body).
Proof. intros s. by rewrite permitApi_run. Qed.

Lemma does_bind {A B} t1 t2 (m : Async A) (f : A → Async B) :
  does t1 m → (∀ a, does t2 (f a)) → does (t1 ++ t2) (m ≫= f).
Proof.
  intros Hm Hf s. rewrite bind_run. destruct (Hm s) as [Hok E1].
  destruct (m s) as [[a|e] s1]; [|done]. cbn in E1.
  destruct (Hf a s1) as [Hok2 E2]. by rewrite E2, E1, app_assoc.
Qed.

Lemma does_foldM {A B} (cs : A → list call) (f : B → A → Async B) l b :
  (∀ b x, x ∈ l → does (cs x) (f b x)) →
  does (concat (map cs l)) (foldM f l b).
Proof.
  revert b. induction l as [|x l IH]; intros b Hf; cbn [foldM map concat].
  - apply does_ret.
  - apply does_bind; [apply Hf; by left|]. intros b'. apply IH.
    intros b'' y Hy. apply Hf. by right.
Qed.

Lemma does_forOf {A} (cs : A → list call) (body : A → Async unit) l :
  (∀ x, x ∈ l → does (cs x) (body x)) →
  does (concat (map cs l)) (forOf l body).
Proof. intros Hb. apply does_foldM. intros _ x. apply Hb. Qed.

Lemma concat_map_filter {A B} (p : A → bool) (g : A → B) l :
  concat (map (λ x, if p x then [g x] else []) l) = map g (List.filter p l).
Proof.
  induction l as [|x l IH]; [done|]. cbn. rewrite IH. by destruct (p x).
Qed.

Lemma concat_map_singleton {A B} (g : A → B) (l : list A) :
  concat (map (λ x, [g x]) l) = map g l.
Proof. induction l as [|x l IH]; [done|]. cbn. by rewrite IH. Qed.

(** A listing makes one GET and returns the listed value of the world. *)
Lemma list_run endpoint s :
  (result ← permitApi "GET" endpoint VUndef;
   mret (if success result then data result else VArr [])) s =
  (Ok (list_value endpoint (world s)),
   State (fetch (world s) (sent "GET" endpoint VUndef)).2
         (calls s ++ [GET endpoint])
         (logs s ++ transport_log (fetch (world s) (sent "GET" endpoint VUndef)).1)).
Proof. by rewrite bind_run, permitApi_run. Qed.



Lemma is_ok_unit (r : res unit) : is_ok r = true → r = Ok tt.
Proof. by destruct r as [[]|]. Qed.


Lemma does_lift_bind {A B} t (a : A) (f : A → Async B) :
  does t (f a) → does t (lift (Ok a) ≫= f).
Proof. intros Hf s. apply (Hf s). Qed.

Ltac does_steps :=
  repeat match goal with
  | |- does _ (log _ _) => apply does_log
  | |- does _ (mret _) => apply does_ret
  | |- does _ (permitApi _ _ _) => apply does_permitApi
  | |- does _ (lift (Ok _) ≫= _) => apply does_lift_bind
  | |- does _ (if ?b then _ else _) => destruct b
  | |- does _ (_ ≫= _) => eapply does_bind; [|intros ?]
  end.

(** ** Reset orchestrator: the run of each stage *)

Lemma replay_app w t1 t2 : replay w (t1 ++ t2) = replay (replay w t1) t2.
Proof. apply foldl_app. Qed.

Lemma readableb_readable v : readableb v = true → readable v.
Proof. destruct v; intros; try done; by split. Qed.

Lemma readableb_unreadable v k : readableb v = false → get v k = Throw TypeError.
Proof. by destruct v. Qed.

Lemma readable_prefix_all items : forallb readableb items = true → readable_prefix items = items.
Proof.
  induction items as [|item items IH]; [done|]. cbn.
  intros [-> ?]%andb_true_iff. by rewrite IH.
Qed.

Lemma readable_prefix_elem item items :
  item ∈ readable_prefix items → item ∈ items ∧ readable item.
Proof.
  induction items as [|x items IH]; cbn; [by intros ?%elem_of_nil|].
  destruct (readableb x) eqn:Hx; [|by intros ?%elem_of_nil].
  intros [->|Hin]%elem_of_cons.
  - split; [by left|by apply readableb_readable].
  - destruct (IH Hin). split; [by right|done].
Qed.

Lemma forallb_readable_filter (p : value → bool) items :
  forallb readableb items = true → forallb readableb (List.filter p items) = true.
Proof.
  induction items as [|x items IH]; [done|]. cbn.
  intros [Hx ?]%andb_true_iff. destruct (p x); cbn; [rewrite Hx|]; by apply IH.
Qed.

Lemma falsy_iterable v : truthy v = false → iterable v = [].
Proof. destruct v as [| |b|n|str|l|m]; try done. by destruct str. Qed.

Lemma none_or_empty_is_empty v : none_or_empty v = Ok (is_empty v).
Proof.
  unfold none_or_empty, is_empty, prop. destruct (truthy v) eqn:Hv; [|done].
  by destruct v.
Qed.

Lemma empty_iterable v : is_empty v = true → iterable v = [] ∧ filterable v = [].
Proof.
  unfold is_empty, prop.
  destruct v as [| |b|n|str|l|m]; try done.
  - by destruct str.
  - by destruct l.
Qed.

Lemma filterR_has_type_throw ty items :
  forallb readableb items = false → filterR (has_type ty) items = Throw TypeError.
Proof.
  induction items as [|x items IH]; [done|]. cbn [forallb filterR].
  destruct (readableb x) eqn:Hx; cbn [andb].
  - intros H. rewrite (has_type_readable _ _ (readableb_readable _ Hx)), (IH H). done.
  - intros _. unfold has_type. by rewrite (readableb_unreadable _ _ Hx).
Qed.

Lemma performs_eq {A} t t' ok ok' (m : Async A) :
  performs t ok m → t = t' → ok = ok' → performs t' ok' m.
Proof. by intros ? <- <-. Qed.

Lemma performs_ret {A} (a : A) : performs [] true (mret a : Async A).
Proof. intros s. cbn. by rewrite app_nil_r. Qed.

Lemma performs_log lvl msg : performs [] true (log lvl msg : Async unit).
Proof. intros s. cbn. by rewrite app_nil_r. Qed.

Lemma performs_throw {A B} e (k : A → Async B) : performs [] false (lift (Throw e) ≫= k).
Proof. intros s. cbn. by rewrite app_nil_r. Qed.

Lemma performs_lift_bind {A B} t ok (a : A) (k : A → Async B) :
  performs t ok (k a) → performs t ok (lift (Ok a) ≫= k).
Proof. intros H s. apply (H s). Qed.

Lemma performs_permitApi method endpoint body :
  performs [Call method endpoint (default_null body)] true (permitApi method endpoint body).
Proof.
  intros s. rewrite permitApi_run. cbn. split_and!; [done..|].
  unfold respond, sent. cbn. by destruct body.
Qed.

Lemma performs_bind {A B} t1 t2 ok (m : Async A) (k : A → Async B) :
  performs t1 true m → (∀ a, performs t2 ok (k a)) → performs (t1 ++ t2) ok (m ≫= k).
Proof.
  intros Hm Hk s. rewrite bind_run. destruct (Hm s) as (Hok & E1 & W1).
  destruct (m s) as [[a|e] s1]; [|done]. cbn [fst snd] in *.
  destruct (Hk a s1) as (Hok2 & E2 & W2).
  by rewrite E2, E1, W2, W1, app_assoc, replay_app.
Qed.

Lemma performs_stop {A B} t (m : Async A) (k : A → Async B) :
  performs t false m → performs t false (m ≫= k).
Proof.
  intros Hm s. rewrite bind_run. destruct (Hm s) as (Hok & E1 & W1).
  by destruct (m s) as [[a|e] s1].
Qed.

Lemma performs_then {A B} t ok (m : Async A) (k : A → Async B) :
  performs t ok m → (∀ a, performs [] true (k a)) → performs t ok (m ≫= k).
Proof.
  intros Hm Hk. destruct ok; [|by apply performs_stop].
  eapply performs_eq; [by apply performs_bind|by rewrite app_nil_r|done].
Qed.

(** A loop whose body reads a property of the item first stops at the
    first item that cannot be read. *)
Lemma performs_foldM {B} (cs : value → list call) (f : B → value → Async B) items b :
  (∀ b item, readable item → performs (cs item) true (f b item)) →
  (∀ b item, readableb item = false → performs [] false (f b item)) →
  performs (concat (map cs (readable_prefix items))) (forallb readableb items)
           (foldM f items b).
Proof.
  intros Hgood Hbad. revert b.
  induction items as [|item items IH]; intros b; cbn [foldM readable_prefix forallb].
  - apply performs_ret.
  - destruct (readableb item) eqn:Hr; cbn [map concat andb].
    + apply performs_bind; [apply Hgood; by apply readableb_readable|]. intros b'. apply IH.
    + apply performs_stop. by apply Hbad.
Qed.

Lemma performs_forOf (cs : value → list call) (body : value → Async unit) items :
  (∀ item, readable item → performs (cs item) true (body item)) →
  (∀ item, readableb item = false → performs [] false (body item)) →
  performs (concat (map cs (readable_prefix items))) (forallb readableb items)
           (forOf items body).
Proof. intros Hgood Hbad. apply performs_foldM; intros _; [apply Hgood|apply Hbad]. Qed.

(** A stage that logs a line, asks for a collection and goes on with the
    result. *)
Lemma stage_head lvl msg endpoint (k : result → Async unit)
    (tr : result → list call) (okf : result → bool) :
  (∀ r, performs (tr r) (okf r) (k r)) →
  stage_run (λ w t returned,
               let r := result_of (fetch w (sent "GET" endpoint VUndef)).1 in
               t = GET endpoint :: tr r ∧ returned = okf r)
            (log lvl msg;; r ← permitApi "GET" endpoint VUndef; k r).
Proof.
  intros Hk s. rewrite bind_run. unfold log. cbn iota beta.
  rewrite bind_run, permitApi_run. cbn zeta iota beta. cbn [world calls logs].
  set (r := result_of _). set (s1 := State _ _ _).
  destruct (Hk r s1) as (Hok & E & W). exists (GET endpoint :: tr r).
  rewrite Hok, E, W. subst s1. cbn [world calls]. split_and!; try done.
  by rewrite <- app_assoc.
Qed.

(** A stage that logs a line, lists a collection and goes on with the
    listed value. *)
Lemma stage_listing lvl msg endpoint (f : value → Async unit)
    (tr : value → list call) (okf : value → bool) :
  (∀ v, performs (tr v) (okf v) (f v)) →
  stage_run (λ w t returned,
               let v := list_value endpoint w in
               t = GET endpoint :: tr v ∧ returned = okf v)
            (log lvl msg;;
             v ← (result ← permitApi "GET" endpoint VUndef;
                  mret (if success result then data result else VArr []));
             f v).
Proof.
  intros Hf s. rewrite bind_run. unfold log. cbn iota beta.
  rewrite bind_run, list_run. cbn iota beta. cbn [world calls logs].
  set (v := list_value _ _). set (s1 := State _ _ _).
  destruct (Hf v s1) as (Hok & E & W). exists (GET endpoint :: tr v).
  rewrite Hok, E, W. subst s1. cbn [world calls]. split_and!; try done.
  by rewrite <- app_assoc.
Qed.

Lemma stage_fixed (c : call) (m : Async unit) :
  performs [c] true m → stage_run (λ _ t returned, t = [c] ∧ returned = true) m.
Proof. intros Hm s. destruct (Hm s) as (Hok & E & W). exists [c]. by rewrite Hok. Qed.

Ltac performs_steps :=
  repeat match goal with
  | |- performs _ _ (log _ _) => apply performs_log
  | |- performs _ _ (mret _) => apply performs_ret
  | |- performs _ _ (permitApi _ _ _) => apply performs_permitApi
  | |- performs _ _ (lift (Ok _) ≫= _) => apply performs_lift_bind
  | |- performs _ _ (if ?b then _ else _) => destruct b
  | |- performs _ _ (_ ≫= _) => eapply performs_bind; [|intros ?]
  end.

Lemma deleteSetRules_run : stage_run set_rules_stage deleteSetRules.
Proof.
  unfold deleteSetRules.
  apply (stage_head _ _ _ _
    (λ r, map delete_rule_call
            (readable_prefix (iterable (if success r then data r else VArr []))))
    (λ r, negb (truthy (if success r then data r else VArr [])) ||
          loop_returns (if success r then data r else VArr []))).
  intros r. destruct (success r); cbn [negb orb]; [|apply performs_log].
  destruct (truthy (data r)) eqn:Ht; cbn [negb orb].
  - unfold iterable, loop_returns. destruct (iter (data r)) as [rules|e];
      [|apply performs_throw].
    apply performs_lift_bind. apply performs_then; [|intros; apply performs_log].
    eapply performs_eq;
      [apply performs_foldM with (cs := λ rule, [delete_rule_call rule])
      |by rewrite concat_map_singleton|done].
    + intros deleted rule Hrule. cbn beta. rewrite !(get_readable _ _ Hrule).
      do 3 apply performs_lift_bind.
      eapply performs_eq;
        [apply performs_bind; [apply performs_permitApi|intros; apply performs_ret]
        |reflexivity|done].
    + intros deleted rule Hrule. cbn beta. rewrite (readableb_unreadable rule "user_set" Hrule).
      apply performs_throw.
  - rewrite (falsy_iterable _ Ht). apply performs_log.
Qed.

Lemma deleteConditionSets_run : stage_run condition_sets_stage deleteConditionSets.
Proof.
  unfold deleteConditionSets, listConditionSets.
  apply (stage_listing _ _ _ _
    (λ v, map delete_condition_set_call
            (List.filter (typed CONDITION_SET_TYPES_RESOURCE_SET) (filterable v)) ++
          map delete_condition_set_call
            (List.filter (typed CONDITION_SET_TYPES_USER_SET) (filterable v)))
    (λ v, is_empty v || filter_returns v)).
  intros v. rewrite none_or_empty_is_empty. pose proof (empty_iterable v) as Hempty.
  apply performs_lift_bind. destruct (is_empty v); cbn [orb].
  { destruct Hempty as [_ ->]; [done|]. apply performs_log. }
  clear Hempty. destruct v as [| |b|n|str|items|m]; try apply performs_throw.
  cbn [array_filter filterable filter_returns].
  destruct (forallb readableb items) eqn:Hitems;
    [|rewrite (filterR_has_type_throw CONDITION_SET_TYPES_RESOURCE_SET _ Hitems);
      apply performs_throw].
  assert (Hall : Forall readable items).
  { apply Forall_forall. intros x Hx. apply readableb_readable.
    rewrite forallb_forall in Hitems. apply Hitems. by apply list_elem_of_In. }
  rewrite (filterR_has_type CONDITION_SET_TYPES_RESOURCE_SET _ Hall),
    (filterR_has_type CONDITION_SET_TYPES_USER_SET _ Hall).
  apply performs_lift_bind. apply performs_bind.
  - eapply performs_eq;
      [apply performs_forOf with (cs := λ cs, [delete_condition_set_call cs])
      |by rewrite concat_map_singleton, readable_prefix_all
         by by apply forallb_readable_filter
      |by apply forallb_readable_filter].
    + intros cs Hcs. cbn beta. rewrite (get_readable _ _ Hcs).
      eapply performs_eq; [performs_steps|reflexivity|reflexivity].
    + intros cs Hcs. cbn beta. rewrite (readableb_unreadable _ _ Hcs). apply performs_throw.
  - intros _. apply performs_lift_bind. apply performs_then; [|intros; apply performs_log].
    eapply performs_eq;
      [apply performs_forOf with (cs := λ cs, [delete_condition_set_call cs])
      |by rewrite concat_map_singleton, readable_prefix_all
         by by apply forallb_readable_filter
      |by apply forallb_readable_filter].
    + intros cs Hcs. cbn beta. rewrite (get_readable _ _ Hcs).
      eapply performs_eq; [performs_steps|reflexivity|reflexivity].
    + intros cs Hcs. cbn beta. rewrite (readableb_unreadable _ _ Hcs). apply performs_throw.
Qed.

Lemma deleteUserAttributes_run : stage_run attributes_stage (deleteUserAttributes VUndef).
Proof.
  apply stage_fixed. unfold deleteUserAttributes. cbn zeta.
  eapply performs_eq; [performs_steps|reflexivity|reflexivity].
Qed.

Lemma deleteRoles_run : stage_run roles_stage deleteRoles.
Proof.
  unfold deleteRoles, listRoles.
  apply (stage_listing _ _ _ _
    (λ v, map delete_role_call
            (List.filter (unprotected PROTECTED_ROLES) (readable_prefix (iterable v))))
    (λ v, is_empty v || loop_returns v)).
  intros v. rewrite none_or_empty_is_empty. pose proof (empty_iterable v) as Hempty.
  apply performs_lift_bind. destruct (is_empty v); cbn [orb].
  { destruct Hempty as [-> _]; [done|]. apply performs_log. }
  clear Hempty. unfold iterable, loop_returns.
  destruct (iter v) as [items|e]; [|apply performs_throw].
  apply performs_lift_bind. apply performs_then; [|intros; apply performs_log].
  eapply performs_eq;
    [apply performs_forOf with
       (cs := λ role, if unprotected PROTECTED_ROLES role then [delete_role_call role] else [])
    |by rewrite concat_map_filter|done].
  - intros role Hrole. cbn beta. rewrite (get_readable _ _ Hrole).
    apply performs_lift_bind. unfold unprotected.
    destruct (includes _ _); cbn [negb]; [apply performs_log|].
    eapply performs_eq; [performs_steps|reflexivity|reflexivity].
  - intros role Hrole. cbn beta. rewrite (readableb_unreadable _ _ Hrole).
    apply performs_throw.
Qed.

Lemma deleteResources_run : stage_run resources_stage deleteResources.
Proof.
  unfold deleteResources, listResources.
  apply (stage_listing _ _ _ _
    (λ v, map delete_resource_call
            (List.filter (unprotected PROTECTED_RESOURCES) (readable_prefix (iterable v))))
    (λ v, is_empty v || loop_returns v)).
  intros v. rewrite none_or_empty_is_empty. pose proof (empty_iterable v) as Hempty.
  apply performs_lift_bind. destruct (is_empty v); cbn [orb].
  { destruct Hempty as [-> _]; [done|]. apply performs_log. }
  clear Hempty. unfold iterable, loop_returns.
  destruct (iter v) as [items|e]; [|apply performs_throw].
  apply performs_lift_bind. apply performs_then; [|intros; apply performs_log].
  eapply performs_eq;
    [apply performs_forOf with
       (cs := λ resource, if unprotected PROTECTED_RESOURCES resource
                          then [delete_resource_call resource] else [])
    |by rewrite concat_map_filter|done].
  - intros resource Hresource. cbn beta. rewrite (get_readable _ _ Hresource).
    apply performs_lift_bind. unfold unprotected.
    destruct (includes _ _); cbn [negb]; [apply performs_log|].
    unfold deleteResource.
    eapply performs_eq; [performs_steps|reflexivity|reflexivity].
  - intros resource Hresource. cbn beta. rewrite (readableb_unreadable _ _ Hresource).
    apply performs_throw.
Qed.

Lemma deleteDefaultTenant_run : stage_run tenant_stage (deleteDefaultTenant VUndef).
Proof.
  apply stage_fixed. unfold deleteDefaultTenant. cbn zeta.
  eapply performs_eq; [performs_steps|reflexivity|reflexivity].
Qed.

(** ** Reset orchestrator: the stages in order *)

Lemma staged_run_log {A} stages lvl msg (m : Async A) :
  staged_run stages m → staged_run stages (log lvl msg;; m).
Proof.
  intros Hm s. rewrite bind_run. unfold log at 1. cbn iota beta.
  apply (Hm (State _ _ _)).
Qed.

Lemma staged_run_stage {A B} stage stages (m : Async A) (k : A → Async B) :
  stage_run stage m → (∀ a, staged_run stages (k a)) →
  staged_run (stage :: stages) (m ≫= k).
Proof.
  intros Hm Hk s. rewrite bind_run. destruct (Hm s) as (t1 & E1 & W1 & H1).
  destruct (m s) as [[a|e] s1]; cbn [fst snd is_ok] in *.
  - destruct (Hk a s1) as (t2 & E2 & H2). exists (t1 ++ t2).
    rewrite E2, E1, app_assoc. split; [done|].
    exists t1, true. split; [done|]. exists t2. split; [done|]. by rewrite <- W1.
  - exists t1. split; [done|]. exists t1, false. by split.
Qed.

Lemma staged_run_end lvl msg : staged_run [] (log lvl msg : Async unit).
Proof. intros s. exists []. cbn. by rewrite app_nil_r. Qed.

Ltac staged_steps :=
  repeat first
    [ apply staged_run_end
    | apply staged_run_log
    | apply staged_run_stage;
        [first [ apply deleteSetRules_run | apply deleteConditionSets_run
               | apply deleteUserAttributes_run | apply deleteRoles_run
               | apply deleteResources_run | apply deleteDefaultTenant_run ]
        |intros _] ].


Lemma resetAbac_staged :
  staged_run [set_rules_stage; condition_sets_stage; attributes_stage] resetAbac.
Proof. unfold resetAbac, blank. staged_steps. Qed.

Lemma resetRbac_staged : staged_run [roles_stage; resources_stage] resetRbac.
Proof. unfold resetRbac, blank. staged_steps. Qed.

Lemma resetResources_staged : staged_run [resources_stage] resetResources.
Proof. unfold resetResources, blank. staged_steps. Qed.

Lemma resetRoles_staged : staged_run [roles_stage] resetRoles.
Proof. unfold resetRoles, blank. staged_steps. Qed.







(** ** Reset orchestrator: protected keys *)

Lemma scalar_keys_replay w t : scalar_keys w → scalar_keys (replay w t).
Proof.
  intros Hkeys t' endpoint item ks Hep. rewrite <- replay_app. by apply Hkeys.
Qed.

Lemma safe_get endpoint : ¬ protected_delete (GET endpoint).
Proof. by intros [? _]. Qed.

Lemma elem_of_filter_unprotected protected item items :
  item ∈ List.filter (unprotected protected) (readable_prefix items) →
  item ∈ items ∧ readable item ∧ includes protected (prop item "key") = false.
Proof.
  intros [Hin Hun]%list_elem_of_In%filter_In.
  apply list_elem_of_In, readable_prefix_elem in Hin as [? ?].
  split_and!; [done..|]. unfold unprotected in Hun. by destruct (includes _ _).
Qed.

Lemma safe_set_rules_stage : spares_protected set_rules_stage.
Proof.
  intros w t returned _ [-> _]. constructor; [apply safe_get|].
  apply Forall_forall. intros c (rule & -> & _)%list_elem_of_fmap.
  intros [_ He%protected_endpoint_inv]. cbn in He.
  destruct_or!; by apply facts_not_schema in He.
Qed.

Lemma safe_condition_set_delete cs : ¬ protected_delete (delete_condition_set_call cs).
Proof.
  intros [_ He%protected_endpoint_inv]. cbn in He.
  destruct_or!; apply schema_inj in He; discriminate.
Qed.

Lemma safe_condition_sets_stage : spares_protected condition_sets_stage.
Proof.
  intros w t returned _ [-> _]. constructor; [apply safe_get|].
  apply Forall_app; split; apply Forall_forall;
    intros c (cs & -> & _)%list_elem_of_fmap; apply safe_condition_set_delete.
Qed.

Lemma safe_attributes_stage : spares_protected attributes_stage.
Proof.
  intros w t returned _ [-> _]. constructor; [|done].
  intros [_ He%protected_endpoint_inv]. cbn in He.
  destruct_or!; apply schema_inj in He; discriminate.
Qed.

Lemma safe_roles_stage : spares_protected roles_stage.
Proof.
  intros w t returned Hkeys [-> _]. constructor; [apply safe_get|].
  apply Forall_forall. intros c (role & -> & Hrole)%list_elem_of_fmap.
  apply elem_of_filter_unprotected in Hrole as (Hin & Hread & Hinc).
  assert (Hkey : ∀ ks, get role "key" ≠ Ok (VArr ks))
    by (intros ks; exact (Hkeys [] _ _ ks (or_introl eq_refl) Hin)).
  rewrite (get_readable _ _ Hread) in Hkey.
  destruct (toString_not_protected (prop role "key")) as [Hroles _];
    [intros ks E; apply (Hkey ks); by rewrite E|].
  intros [_ He%protected_endpoint_inv]. cbn in He.
  apply Hroles; [done|]. unfold PROTECTED_ROLES.
  destruct He as [He|[He|He]]; apply schema_inj in He; [discriminate|..].
  - apply (string_app_inv_head "/roles/" _ "admin") in He. rewrite He. by left.
  - apply (string_app_inv_head "/roles/" _ "viewer") in He. rewrite He. right. by left.
Qed.

Lemma safe_resources_stage : spares_protected resources_stage.
Proof.
  intros w t returned Hkeys [-> _]. constructor; [apply safe_get|].
  apply Forall_forall. intros c (resource & -> & Hresource)%list_elem_of_fmap.
  apply elem_of_filter_unprotected in Hresource as (Hin & Hread & Hinc).
  assert (Hkey : ∀ ks, get resource "key" ≠ Ok (VArr ks))
    by (intros ks; exact (Hkeys [] _ _ ks (or_intror eq_refl) Hin)).
  rewrite (get_readable _ _ Hread) in Hkey.
  destruct (toString_not_protected (prop resource "key")) as [_ Hres];
    [intros ks E; apply (Hkey ks); by rewrite E|].
  intros [_ He%protected_endpoint_inv]. cbn in He.
  apply Hres; [done|]. unfold PROTECTED_RESOURCES.
  destruct He as [He|[He|He]]; apply schema_inj in He; [|discriminate..].
  apply (string_app_inv_head "/resources/" _ "__user") in He. rewrite He. by left.
Qed.

Lemma safe_tenant_stage : spares_protected tenant_stage.
Proof.
  intros w t returned _ [-> _]. constructor; [|done].
  intros [_ He%protected_endpoint_inv]. cbn in He.
  destruct_or!; by apply facts_not_schema in He.
Qed.

Lemma staged_spares_protected stages ok w t :
  Forall spares_protected stages → scalar_keys w → staged stages ok w t →
  Forall (λ c, ¬ protected_delete c) t.
Proof.
  intros Hst. revert w t.
  induction Hst as [|stage stages Hstage _ IH]; intros w t Hkeys; cbn [staged].
  - by intros [_ ->].
  - intros (t1 & returned & H1 & H). pose proof (Hstage _ _ _ Hkeys H1) as Hsafe.
    destruct returned; [|by destruct H as [_ ->]].
    destruct H as (t2 & -> & H2). apply Forall_app. split; [done|].
    eapply IH; [|done]. by apply scalar_keys_replay.
Qed.

Lemma staged_run_spares_protected {A} stages (m : Async A) s :
  staged_run stages m → Forall spares_protected stages → scalar_keys (world s) →
  ∃ t, calls (m s).2 = calls s ++ t ∧ Forall (λ c, ¬ protected_delete c) t.
Proof.
  intros Hm Hst Hkeys. destruct (Hm s) as (t & Et & Ht). exists t. split; [done|].
  by eapply staged_spares_protected.
Qed.

Ltac safe_stages :=
  repeat (apply Forall_cons; split); [..|by apply Forall_nil];
  first [ apply safe_set_rules_stage | apply safe_condition_sets_stage
        | apply safe_attributes_stage | apply safe_roles_stage
        | apply safe_resources_stage | apply safe_tenant_stage ].


(** X4: when no role and no resource that the remote lists has an array as
    its key, none of the partial resets (ABAC, RBAC, resources only, roles
    only) deletes the resource [__user] or the roles [admin] and
    [viewer]. *)
Theorem partial_resets_spare_protected s (Hkeys : scalar_keys (world s)) :
  (∃ t, calls (resetAbac s).2 = calls s ++ t ∧ Forall (λ c, ¬ protected_delete c) t) ∧
  (∃ t, calls (resetRbac s).2 = calls s ++ t ∧ Forall (λ c, ¬ protected_delete c) t) ∧
  (∃ t, calls (resetResources s).2 = calls s ++ t ∧ Forall (λ c, ¬ protected_delete c) t) ∧
  (∃ t, calls (resetRoles s).2 = calls s ++ t ∧ Forall (λ c, ¬ protected_delete c) t).
Proof.
  split_and!.
  - eapply staged_run_spares_protected; [apply resetAbac_staged| |done]. safe_stages.
  - eapply staged_run_spares_protected; [apply resetRbac_staged| |done]. safe_stages.
  - eapply staged_run_spares_protected; [apply resetResources_staged| |done]. safe_stages.
  - eapply staged_run_spares_protected; [apply resetRoles_staged| |done]. safe_stages.
Qed.

(** ** Reset orchestrator: what each stage deletes *)




Lemma stage_after_call t lvl msg method endpoint body (f : result → Async unit) s :
  does t (f (result_of (fetch (world s) (sent method endpoint body)).1)) →
  ((log lvl msg;; r ← permitApi method endpoint body; f r) s).1 = Ok tt ∧
  calls ((log lvl msg;; r ← permitApi method endpoint body; f r) s).2 =
    calls s ++ Call method endpoint (default_null body) :: t.
Proof.
  intros Hf. rewrite bind_run. unfold log. cbn iota beta.
  rewrite bind_run, permitApi_run. cbn beta iota zeta delta [world calls logs fst snd].
  match goal with |- context [f _ ?s1] => destruct (Hf s1) as [Hok E] end.
  split; [by apply is_ok_unit|]. rewrite E. cbn. by rewrite <- app_assoc.
Qed.

(** X10: when the set-rules listing is an array of readable items, the
    set-rules stage returns and sends, after the listing, one DELETE per
    listed rule, in listing order, whose body is the triple read from the
    rule: the body [createSetRule] posts for the same triple. *)
Theorem deleteSetRules_deletes_each_rule s items
    (Hlist : (listSetRules s).1 = Ok (VArr items))
    (Hitems : Forall readable items) :
  (deleteSetRules s).1 = Ok tt ∧
  calls (deleteSetRules s).2 =
    calls s ++ GET (facts "/set_rules") :: map delete_rule_call items.
Proof.
  unfold listSetRules in Hlist. rewrite list_run in Hlist. injection Hlist as Hv.
  unfold list_value in Hv. cbn zeta in Hv.
  unfold deleteSetRules. apply stage_after_call.
  destruct (success _) eqn:Hs; cbn [negb orb].
  - rewrite Hv. cbn [truthy negb iter]. apply does_lift_bind. eapply does_eq.
    { apply does_bind; [|intros ?; apply does_log].
      apply does_foldM with (cs := λ rule, [delete_rule_call rule]).
      intros deleted rule Hrule. rewrite Forall_forall in Hitems.
      rewrite !(get_readable _ _ (Hitems _ Hrule)).
      eapply does_eq; [does_steps|reflexivity]. }
    by rewrite concat_map_singleton, app_nil_r.
  - injection Hv as <-. apply does_log.
Qed.

(** X6: when the set-rules listing is a truthy value that cannot be
    iterated (a JSON object, say, instead of an array), a full reset throws
    in its first stage: the listing is its only call and nothing is
    deleted. *)
Theorem resetAll_aborts_on_unlistable_rules s v e
    (Hlist : (listSetRules s).1 = Ok v)
    (Htruthy : truthy v = true)
    (Hiter : iter v = Throw e) :
  (resetAll s).1 = Throw e ∧
  calls (resetAll s).2 = calls s ++ [GET (facts "/set_rules")].
Proof.
  unfold listSetRules in Hlist. rewrite list_run in Hlist. injection Hlist as Hv.
  unfold list_value in Hv. cbn zeta in Hv.
  destruct (success _) eqn:Hs; [|by subst v].
  unfold resetAll, deleteSetRules, blank. run.
  rewrite Hs, Hv, Htruthy. cbn [negb orb]. by rewrite Hiter.
Qed.

(** ** Create-or-update, the health probe and the read-only report *)

(** X11: for a user set that is an object, [createOrUpdateUserSet] returns
    the success flag of its POST: [true] for a 2xx and for a 409, [false]
    for every other outcome. *)
Theorem createOrUpdateUserSet_returns_create_outcome userSet s
    (Hreadable : readable userSet) :
  (createOrUpdateUserSet userSet s).1 =
  Ok (success (result_of
        (fetch (world s)
           (sent "POST" (schema "/condition_sets")
              (VObj (<["type" := VStr "userset"]> (spread userSet))))).1)).
Proof.
  unfold createOrUpdateUserSet. run.
  set (o := (fetch _ _).1).
  rewrite (get_readable _ _ Hreadable).
  destruct (success (result_of o)) eqn:Hs; [done|].
  by rewrite (success_false_not_409 _ Hs).
Qed.

Lemma prefixb_spec p s : prefixb p s = true ↔ ∃ q, s = p +:+ q.
Proof.
  revert s. induction p as [|a p IH]; intros s; cbn.
  - split; [by exists s|done].
  - destruct s as [|b s]; cbn.
    + split; [done|by intros [q ?]].
    + rewrite andb_true_iff, IH. split.
      * intros [->%Ascii.eqb_eq [q ->]]. by exists q.
      * intros [q [= -> ->]]. split; [apply Ascii.eqb_refl|by exists q].
Qed.

Lemma str_includes_spec s sub : str_includes s sub = true ↔ contains s sub.
Proof.
  unfold contains. induction s as [|a s IH]; cbn [str_includes];
    rewrite orb_true_iff, prefixb_spec.
  - split.
    + intros [[q Hq]|?]; [|done]. by exists "", q.
    + intros (p & q & H). left. destruct p; [by exists q|done].
  - rewrite IH. split.
    + intros [[q Hq]|(p & q & ->)]; [by exists "", q|]. by exists (String a p), q.
    + intros (p & q & H). destruct p as [|b p]; [left; by exists q|].
      right. injection H as -> ->. by exists p, q.
Qed.

(** X12: the health probe never throws, makes no transport call and logs
    nothing; it reports a healthy decision point exactly when [fetch]
    produced a response whose status is 2xx or whose body contains
    [healthy] or [ok] somewhere, so a failing response with the body
    [unhealthy] counts as healthy too. *)
Theorem checkEdgePdpHealth_healthy_iff s :
  ∃ b, checkEdgePdpHealth s =
         (Ok b, State (fetch (world s) health_request).2 (calls s) (logs s)) ∧
       (b = true ↔
        ∃ st text, (fetch (world s) health_request).1 = Response st text ∧
                   ((200 ≤ st ≤ 299)%Z ∨ contains text "healthy" ∨ contains text "ok")).
Proof.
  unfold checkEdgePdpHealth. rewrite bind_run. unfold do_fetch.
  destruct (fetch (world s) health_request) as [[st text|name msg] w]; cbn.
  - eexists. split; [reflexivity|]. rewrite !orb_true_iff, !str_includes_spec.
    unfold response_ok. rewrite andb_true_iff, !Z.leb_le. split.
    + intros H. exists st, text. split; [done|]. tauto.
    + intros (st' & text' & [= <- <-] & H). tauto.
  - exists false. split; [done|]. split; [done|]. by intros (? & ? & ? & _).
Qed.

Lemma emits_forEach P v (cb : value → Async unit) :
  (∀ x, emits P (λ _, True) (cb x)) → emits P (λ _, True) (forEach v cb).
Proof.
  intros Hcb. destruct v; cbn [forEach];
    try (eapply emits_post; [apply emits_lift|done]).
  eapply emits_forOf with (I := λ _, True); [by apply Forall_forall|]. auto.
Qed.

Lemma emits_print_item P item : emits P (λ _, True) (print_item item).
Proof. unfold print_item. emit. Qed.

(** A guarded section of the report: the listing is its only call, and
    what the body throws is caught. *)
Lemma does_guarded_listing endpoint (f : value → Async unit) (handler : exn → Async unit) :
  (∀ v, emits (λ _, False) (λ _, True) (f v)) →
  (∀ e, does [] (handler e)) →
  does [GET endpoint]
    (try_catch
       (v ← (result ← permitApi "GET" endpoint VUndef;
             mret (if success result then data result else VArr []));
        f v)
       handler).
Proof.
  intros Hf Hh s. unfold try_catch. rewrite bind_run, list_run.
  set (s1 := State _ _ _). set (v := list_value _ _).
  destruct (Hf v s1) as (t & Et & Ft & _).
  assert (t = []) as -> by (by destruct Ft). rewrite app_nil_r in Et.
  destruct (f v s1) as [[[]|e] s2]; cbn in *; [by rewrite Et|].
  destruct (Hh e s2) as [Hok E]. split; [done|]. by rewrite E, app_nil_r, Et.
Qed.

(** X13: the report of the interactive tool only reads: whatever the
    remote answers, malformed bodies included, it returns after exactly
    five GETs (roles, resources, condition sets twice, set rules) and
    sends nothing else. *)
Theorem verify_verifySetup_reads_only string_gt0 s :
  (verify_verifySetup string_gt0 s).1 = Ok tt ∧
  calls (verify_verifySetup string_gt0 s).2 =
    calls s ++ [GET (schema "/roles"); GET (schema "/resources");
                GET (schema "/condition_sets"); GET (schema "/condition_sets");
                GET (facts "/set_rules")].
Proof.
  assert (H : does [GET (schema "/roles"); GET (schema "/resources");
                    GET (schema "/condition_sets"); GET (schema "/condition_sets");
                    GET (facts "/set_rules")] (verify_verifySetup string_gt0)).
  { unfold verify_verifySetup, listRoles, listResources, listConditionSets,
      listSetRules, blank.
    eapply does_eq.
    { repeat first
        [ apply does_log
        | apply does_guarded_listing;
            [intros v; emit; first [apply emits_forEach; intros; apply emits_print_item
                                   |eapply emits_forOf with (I := λ _, True);
                                      [by apply Forall_forall|intros; apply emits_print_item]]
            |intros; apply does_log]
        | (eapply does_bind; [|intros ?]) ]. }
    reflexivity. }
  destruct (H s) as [Hok E]. split; [by apply is_ok_unit|exact E].
Qed.

(** ** The setup steps of the preset *)

Lemma createResource_does entity :
  readable entity →
  does [Call "POST" (schema "/resources") (default_null entity)] (createResource entity).
Proof.
  intros He s. unfold createResource. run.
  repeat (rewrite ?(get_readable _ _ He); run).
  destruct (success _); repeat (rewrite ?(get_readable _ _ He); run); done.
Qed.

Lemma createOrUpdateUserSet_does userSet :
  readable userSet →
  does [create_user_set_call userSet] (createOrUpdateUserSet userSet).
Proof.
  intros Hu s. unfold createOrUpdateUserSet. run.
  set (o := (fetch _ _).1).
  destruct (success (result_of o)) eqn:Hs.
  - by rewrite (get_readable _ _ Hu).
  - rewrite (success_false_not_409 _ Hs). cbn. by rewrite (get_readable _ _ Hu).
Qed.

Lemma createSetRule_does userSet resourceSet permission :
  does [Call "POST" (facts "/set_rules") (set_rule userSet resourceSet permission)]
    (createSetRule userSet resourceSet permission).
Proof. unfold createSetRule. eapply does_eq; [does_steps|reflexivity]. Qed.

Lemma does_unit t (m : Async unit) s :
  does t m → (m s).1 = Ok tt ∧ calls (m s).2 = calls s ++ t.
Proof. intros H. destruct (H s) as [Hok E]. split; [by apply is_ok_unit|exact E]. Qed.

Lemma actions_of_keys up low resource a :
  is_Some (actions_of up low resource !! a) ↔ a ∈ rp_actions resource.
Proof.
  unfold actions_of.
  assert (H : ∀ l (acc : gmap string value),
            is_Some (foldl (fun actions action =>
                              <[action := action_entry up low resource action]> actions)
                           acc l !! a) ↔ a ∈ l ∨ is_Some (acc !! a)).
  { induction l as [|x l IH]; intros acc; cbn [foldl].
    - rewrite elem_of_nil. tauto.
    - rewrite IH, elem_of_cons, lookup_insert_is_Some.
      destruct (decide (x = a)) as [->|Hne]; [tauto|]. intuition congruence. }
  rewrite H, lookup_empty. split; [intros [?|[? ?]]; done|by left].
Qed.

Ltac find_elem :=
  solve [repeat first [apply list_elem_of_here | apply list_elem_of_further]].

Lemma setupResources_does up low :
  does (map (fun resource =>
               Call "POST" (schema "/resources") (resource_payload up low resource))
            RESOURCES)
       (setupResources up low).
Proof.
  unfold setupResources, blank. eapply does_eq.
  { apply does_bind; [apply does_log|]. intros _.
    apply does_bind; [|intros _; apply does_bind; [apply does_log|intros _; apply does_log]].
    apply does_forOf with
      (cs := λ resource, [Call "POST" (schema "/resources") (resource_payload up low resource)]).
    intros resource _. eapply does_eq.
    { apply does_bind; [by apply createResource_does|]. intros _. apply does_ret. }
    reflexivity. }
  by rewrite concat_map_singleton, app_nil_r.
Qed.

Lemma setupUserSets_does : does (map create_user_set_call USER_SETS) setupUserSets.
Proof.
  unfold setupUserSets, blank. eapply does_eq.
  { do 3 (apply does_bind; [apply does_log|]; intros _).
    apply does_bind; [|intros _; apply does_bind; [apply does_log|intros _; apply does_log]].
    apply does_forOf with (cs := λ userSet, [create_user_set_call userSet]).
    intros userSet Hin. eapply does_eq.
    { apply does_bind; [|intros _; apply does_ret].
      apply createOrUpdateUserSet_does.
      unfold USER_SETS in Hin. set_unfold. by destruct_or!; subst. }
    reflexivity. }
  by rewrite concat_map_singleton, app_nil_r.
Qed.

Lemma setupSetRules_does :
  does (concat (map (fun rule => map (create_rule_call rule) (rl_actions rule)) SET_RULES))
       setupSetRules.
Proof.
  unfold setupSetRules, blank. eapply does_eq.
  { apply does_bind; [apply does_log|]. intros _.
    apply does_bind; [|intros _; apply does_bind; [apply does_log|intros _; apply does_log]].
    apply does_forOf with
      (cs := λ rule, map (create_rule_call rule) (rl_actions rule)).
    intros rule _. eapply does_eq.
    { apply does_forOf with (cs := λ action, [create_rule_call rule action]).
      intros action _. eapply does_eq.
      { apply does_bind; [apply createSetRule_does|]. intros ok.
        destruct ok; apply does_log. }
      reflexivity. }
    by rewrite concat_map_singleton. }
  by rewrite app_nil_r.
Qed.

(** X15: [setupResources] returns after exactly one POST to the resources
    path per resource of the preset, in the order of the table, whatever
    the remote answers; each payload carries the key of the resource and
    an [actions] object whose keys are exactly the actions of the
    resource. *)
Theorem setupResources_posts_each_resource up low s :
  (setupResources up low s).1 = Ok tt ∧
  calls (setupResources up low s).2 =
    calls s ++ map (fun resource =>
                      Call "POST" (schema "/resources") (resource_payload up low resource))
                   RESOURCES ∧
  Forall (fun resource =>
            prop (resource_payload up low resource) "key" = VStr (rp_key resource) ∧
            ∃ actions, prop (resource_payload up low resource) "actions" = VObj actions ∧
                       ∀ a, is_Some (actions !! a) ↔ a ∈ rp_actions resource)
         RESOURCES.
Proof.
  destruct (does_unit _ _ s (setupResources_does up low)) as [Hok Hcalls].
  split; [exact Hok|]. split; [exact Hcalls|].
  apply Forall_forall. intros resource _. split; [reflexivity|].
  exists (actions_of up low resource). split; [reflexivity|].
  apply actions_of_keys.
Qed.

(** X16: [setupUserSets] returns after exactly one POST per user set of
    the preset, in the order of the table, each carrying the user set with
    [type = 'userset']; it never sends a PATCH, also when the remote
    answers 409 to a create. *)
Theorem setupUserSets_posts_each_user_set s :
  (setupUserSets s).1 = Ok tt ∧
  calls (setupUserSets s).2 = calls s ++ map create_user_set_call USER_SETS.
Proof. apply does_unit, setupUserSets_does. Qed.

(** X17: [setupSetRules] returns after exactly one POST per rule and
    action of the preset, in the order of the table, with the resource set
    [__autogen_<resource>] and the permission [<resource>:<action>]; a
    create that fails does not stop the later ones. Every rule of the table
    names a user set of the preset and actions of a resource of the
    preset. *)
Theorem setupSetRules_posts_each_permission s :
  (setupSetRules s).1 = Ok tt ∧
  calls (setupSetRules s).2 =
    calls s ++ concat (map (fun rule => map (create_rule_call rule) (rl_actions rule))
                           SET_RULES) ∧
  Forall rule_in_preset SET_RULES.
Proof.
  destruct (does_unit _ _ s setupSetRules_does) as [Hok Hcalls].
  split; [exact Hok|]. split; [exact Hcalls|].
  unfold SET_RULES.
  repeat (apply Forall_cons; split); [..|by apply Forall_nil];
    (split; [cbn; find_elem|]);
    unfold RESOURCES; cbn [rl_resource rl_actions];
    repeat first [ apply Exists_cons_hd; split; [reflexivity|]
                 | apply Exists_cons_tl ];
    cbn [rp_actions]; intros action Haction;
    repeat (apply elem_of_cons in Haction as [->|Haction]; [find_elem|]);
    by apply elem_of_nil in Haction.
Qed.

(** ** Resets up to the log *)

Lemma agree_ret {A} (a : A) : agree (mret a) (mret a).
Proof. by intros s s' Hs. Qed.

Lemma agree_lift {A} (r : res A) : agree (lift r) (lift r).
Proof. by intros s s' Hs. Qed.

Lemma agree_log lvl msg lvl' msg' : agree (log lvl msg) (log lvl' msg').
Proof. by intros s s' Hs. Qed.

Lemma agree_bind {A B} (m m' : Async A) (k k' : A → Async B) :
  agree m m' → (∀ a, agree (k a) (k' a)) → agree (m ≫= k) (m' ≫= k').
Proof.
  intros Hm Hk s s' Hs. rewrite !bind_run. destruct (Hm s s' Hs) as [E1 E2].
  destruct (m s) as [[a|e] s1], (m' s') as [[a'|e'] s1']; cbn [fst snd] in *;
    try discriminate.
  - injection E1 as <-. by apply Hk.
  - split; [by destruct e, e'|done].
Qed.

Lemma agree_skip_l {A} lvl msg (m m' : Async A) :
  agree m m' → agree (log lvl msg;; m) m'.
Proof. intros Hm s s' Hs. rewrite bind_run. unfold log. apply Hm. exact Hs. Qed.

Lemma agree_skip_r {A} lvl msg (m m' : Async A) :
  agree m m' → agree m (log lvl msg;; m').
Proof. intros Hm s s' Hs. rewrite bind_run. unfold log. apply Hm. exact Hs. Qed.

Lemma agree_assoc_r {A B C} (m : Async C) (a : Async A) (f : A → Async B) (g : B → Async C) :
  agree m (x ← a; (f x ≫= g)) → agree m ((a ≫= f) ≫= g).
Proof.
  intros H s s' Hs. specialize (H s s' Hs). rewrite !bind_run in *.
  by destruct (a s') as [[x|e] s1].
Qed.

Lemma agree_end_l lvl msg : agree (log lvl msg) (mret tt).
Proof. by intros s s' Hs. Qed.

Lemma agree_then_l (m m' k : Async unit) :
  agree m m' → agree k (mret tt) → agree (m;; k) m'.
Proof.
  intros Hm Hk s s' Hs. rewrite bind_run. destruct (Hm s s' Hs) as [E1 E2].
  destruct (m s) as [[[]|e] s1]; cbn [fst snd] in *; [|done].
  destruct (Hk s1 (m' s').2 E2) as [E3 E4]. rewrite ret_run in E3, E4.
  cbn [fst snd] in *. split; [congruence|done].
Qed.

Lemma agree_permitApi method endpoint data :
  agree (permitApi method endpoint data) (permitApi method endpoint data).
Proof.
  intros s s' [Ew Ec]. rewrite !permitApi_run. cbn zeta. rewrite Ew, Ec. by split.
Qed.

Lemma agree_foldM {A B} (f : B → A → Async B) l b :
  (∀ b x, agree (f b x) (f b x)) → agree (foldM f l b) (foldM f l b).
Proof.
  intros Hf. revert b. induction l as [|x l IH]; intros b; cbn [foldM].
  - apply agree_ret.
  - apply agree_bind; [apply Hf|apply IH].
Qed.

Lemma agree_forOf {A} (body : A → Async unit) l :
  (∀ x, agree (body x) (body x)) → agree (forOf l body) (forOf l body).
Proof. intros Hb. apply agree_foldM. intros _ x. apply Hb. Qed.

Ltac agree_steps :=
  repeat match goal with
  | |- agree (log _ _) (log _ _) => apply agree_log
  | |- agree (mret _) (mret _) => apply agree_ret
  | |- agree (lift _) (lift _) => apply agree_lift
  | |- agree (permitApi _ _ _) (permitApi _ _ _) => apply agree_permitApi
  | |- agree (forOf _ _) (forOf _ _) => apply agree_forOf; intros ?
  | |- agree (foldM _ _ _) (foldM _ _ _) => apply agree_foldM; intros ? ?
  | |- agree (if ?b then _ else _) (if ?b then _ else _) => destruct b
  | |- agree (_ ≫= _) (_ ≫= _) => apply agree_bind; [|intros ?]
  end.

Lemma deleteSetRules_agree : agree deleteSetRules deleteSetRules.
Proof. unfold deleteSetRules. agree_steps. Qed.

Lemma deleteConditionSets_agree : agree deleteConditionSets deleteConditionSets.
Proof. unfold deleteConditionSets, listConditionSets. agree_steps. Qed.

Lemma deleteUserAttributes_agree k : agree (deleteUserAttributes k) (deleteUserAttributes k).
Proof. unfold deleteUserAttributes. cbn zeta. agree_steps. Qed.

Lemma deleteRoles_agree : agree deleteRoles deleteRoles.
Proof. unfold deleteRoles, listRoles. agree_steps. Qed.

Lemma deleteResources_agree : agree deleteResources deleteResources.
Proof. unfold deleteResources, listResources, deleteResource. agree_steps. Qed.

Lemma deleteDefaultTenant_agree k : agree (deleteDefaultTenant k) (deleteDefaultTenant k).
Proof. unfold deleteDefaultTenant. cbn zeta. agree_steps. Qed.

Lemma agree_start {A} (m m' : Async A) s :
  agree m m' →
  (m s).1 = (m' s).1 ∧ world (m s).2 = world (m' s).2 ∧ calls (m s).2 = calls (m' s).2.
Proof. intros H. by destruct (H s s) as [? [? ?]]. Qed.

Ltac reassoc :=
  repeat match goal with
  | |- agree _ ((_ ≫= _) ≫= _) => apply agree_assoc_r
  end.

Ltac skip_left :=
  match goal with
  | |- agree (log _ _ ≫= _) _ => apply agree_skip_l
  end.

Ltac skip_right :=
  reassoc;
  match goal with
  | |- agree _ (log _ _ ≫= _) => apply agree_skip_r
  end.

Ltac same_stage :=
  reassoc;
  match goal with
  | |- agree (?m ≫= _) (?m ≫= _) =>
      apply agree_bind;
      [first [ apply deleteSetRules_agree | apply deleteConditionSets_agree
             | apply deleteUserAttributes_agree | apply deleteRoles_agree
             | apply deleteResources_agree | apply deleteDefaultTenant_agree ]
      |intros _]
  end.

(** X18: up to the log, a full reset is an ABAC reset, then an RBAC reset,
    then the deletion of the default tenant, and an RBAC reset is a roles
    reset, then a resources reset: from any state the two sides end the same
    way (returning, or throwing the same exception), make the same calls and
    leave the remote in the same state. *)
Theorem resets_compose s :
  let abac_rbac_tenant := resetAbac;; resetRbac;; deleteDefaultTenant VUndef in
  let roles_resources := resetRoles;; resetResources in
  ((resetAll s).1 = (abac_rbac_tenant s).1 ∧
   world (resetAll s).2 = world (abac_rbac_tenant s).2 ∧
   calls (resetAll s).2 = calls (abac_rbac_tenant s).2) ∧
  ((resetRbac s).1 = (roles_resources s).1 ∧
   world (resetRbac s).2 = world (roles_resources s).2 ∧
   calls (resetRbac s).2 = calls (roles_resources s).2).
Proof.
  intros abac_rbac_tenant roles_resources. split; apply agree_start.
  - unfold abac_rbac_tenant, resetAll, resetAbac, resetRbac, blank.
    repeat first [skip_left | skip_right | same_stage].
    apply agree_then_l; [apply deleteDefaultTenant_agree|].
    apply agree_skip_l, agree_end_l.
  - unfold roles_resources, resetRbac, resetRoles, resetResources, blank.
    repeat first [skip_left | skip_right | same_stage].
    apply agree_log.
Qed.

(** ** The verification of the setup script only reads *)

Lemma runs_quiet_then {A B} (T : list call → Prop) (Q : A → Prop) (m : Async A)
    (k : A → Async B) :
  emits (λ _, False) Q m → T [] → (∀ a, Q a → runs_as T (k a)) → runs_as T (m ≫= k).
Proof.
  intros Hm Hnil Hk s. rewrite bind_run.
  destruct (Hm s) as (t & E & F & HQ). destruct F; [|done]. rewrite app_nil_r in E.
  destruct (m s) as [[a|e] s1]; cbn [fst snd] in *.
  - destruct (Hk a (HQ a eq_refl) s1) as (t & Et & Ht). exists t. by rewrite Et, E.
  - exists []. by rewrite app_nil_r.
Qed.

(** X19: the verification of the setup script only reads. Whether it
    returns or throws, and whatever the remote answers, its calls are the
    listing of the condition sets, followed or not by the listing of the set
    rules; it sends nothing else. *)
Theorem verifySetup_reads_only s :
  ∃ t, calls (verifySetup s).2 = calls s ++ t ∧
       (t = [GET (schema "/condition_sets")] ∨
        t = [GET (schema "/condition_sets"); GET (facts "/set_rules")]).
Proof.
  revert s. change (runs_as (λ t, t = [GET (schema "/condition_sets")] ∨
    t = [GET (schema "/condition_sets"); GET (facts "/set_rules")]) verifySetup).
  unfold verifySetup, listConditionSets, listSetRules, blank.
  do 2 apply runs_log.
  eapply runs_as_post;
    [apply (runs_list_head (λ t, t = [] ∨ t = [GET (facts "/set_rules")]))
    |intros t (t' & -> & [->| ->]); [by left|by right]].
  intros conditionSets _.
  apply runs_lift; [by left|]. intros userSets _.
  apply runs_log.
  eapply runs_quiet_then with (Q := λ _, True); [|by left|intros _ _].
  { eapply emits_forOf with (I := λ _, True); [by apply Forall_forall|].
    intros us _. emit. }
  apply runs_log.
  eapply runs_as_post;
    [apply (runs_list_head (λ t, t = [])) |intros t (t' & -> & ->); by right].
  intros setRules _.
  eapply (emits_no_calls (λ _, True)).
  emit;
    try (eapply emits_forOf with (I := λ _, True); [by apply Forall_forall|]; intros; emit).
Qed.

(** ** Creates without an entity *)

(** X20: handed [null] or [undefined] for the entity, the creates of the
    repositories throw a [TypeError] before anything is sent or logged;
    [createOrUpdateUserSet] spreads the entity first, so it posts a user set
    that has only its type and throws afterwards, whatever the remote
    answers. *)
Theorem creates_without_entity entity s (Hmissing : entity = VUndef ∨ entity = VNull) :
  createResource entity s = (Throw TypeError, s) ∧
  createRole entity s = (Throw TypeError, s) ∧
  createUserAttribute entity s = (Throw TypeError, s) ∧
  createUserSet entity s = (Throw TypeError, s) ∧
  createResourceSet entity s = (Throw TypeError, s) ∧
  (createOrUpdateUserSet entity s).1 = Throw TypeError ∧
  calls (createOrUpdateUserSet entity s).2 =
    calls s ++ [Call "POST" (schema "/condition_sets") (VObj {[ "type" := VStr "userset" ]})].
Proof.
  assert (Hget : ∀ k, get entity k = Throw TypeError) by by destruct Hmissing as [-> | ->].
  assert (Hspread : spread entity = ∅) by by destruct Hmissing as [-> | ->].
  split_and!;
    try (unfold createResource, createRole, createUserAttribute, createUserSet,
           createResourceSet; rewrite bind_run; unfold lift; by rewrite Hget).
  - unfold createOrUpdateUserSet. run. rewrite Hspread.
    set (o := (fetch _ _).1).
    destruct (success (result_of o)) eqn:Hs; [by rewrite Hget|].
    rewrite (success_false_not_409 _ Hs). cbn. by rewrite Hget.
  - unfold createOrUpdateUserSet. run. rewrite Hspread.
    set (o := (fetch _ _).1).
    destruct (success (result_of o)) eqn:Hs; [by rewrite Hget|].
    rewrite (success_false_not_409 _ Hs). cbn. by rewrite Hget.
Qed.

End Client.

(** ** Concrete remotes *)

(** No body of [example_bodies] holds an item with an array as its key, so
    a remote whose bodies are decoded by [example_parse] lists none. *)
Lemma example_parse_scalar text item ks :
  item ∈ iterable (jsonBody_of example_parse text) → get item "key" ≠ Ok (VArr ks).
Proof.
  unfold jsonBody_of. destruct (String.eqb text ""); [by intros ?%elem_of_nil|].
  unfold example_parse, table_parse, example_bodies. cbn [find fst snd].
  repeat match goal with
  | |- context [String.eqb ?a text] => destruct (String.eqb a text)
  end; cbn [fmap option_fmap option_map snd default iterable iter];
    intros Hin Hkey;
    repeat (apply elem_of_cons in Hin as [->|Hin]; [by vm_compute in Hkey|]);
    by apply elem_of_nil in Hin.
Qed.

Lemma example_scalar_keys {World} (fetch : World → request → outcome * World) w :
  scalar_keys fetch example_parse simple_stringify cfg w.
Proof.
  intros t endpoint item ks _. unfold list_value.
  destruct (fetch _ _).1 as [st text|name msg]; cbn [result_of success data];
    [|by intros ?%elem_of_nil].
  destruct (_ || _); [apply example_parse_scalar|by intros ?%elem_of_nil].
Qed.



Lemma verifySetup_condition_scope_lint_witness :
  let s := start [Response 200 "SETS"; Response 200 "RULES"] in
  let condition := default "" (simple_stringify (groups_condition "subject.groups")) in
  (listConditionSets scripted example_parse simple_stringify cfg s).1 =
    Ok (VArr [legacy_set; docs_set; staff_set]) ∧
  array_filter (VArr [legacy_set; docs_set; staff_set]) (has_type "userset") =
    Ok [legacy_set; staff_set] ∧
  (verifySetup scripted example_parse simple_stringify cfg s).1 = Ok tt ∧
  legacy_set ∈ [legacy_set; staff_set] ∧
  get legacy_set "key" = Ok (VStr "legacy") ∧
  get legacy_set "conditions" = Ok (groups_condition "subject.groups") ∧
  simple_stringify (groups_condition "subject.groups") = Some condition ∧
  ∃ l, logs (verifySetup scripted example_parse simple_stringify cfg s).2 = logs s ++ l ∧
    (str_includes condition "subject.groups" = true →
       (Warning, "  - " +:+ toString (VStr "legacy")) ∈ l) ∧
    (str_includes condition "user.groups" = true →
       (Info, "  - " +:+ toString (VStr "legacy") +:+ " (user.groups)") ∈ l) ∧
    (∀ k', (Warning, "  - " +:+ k') ∈ l →
       ∃ us' key', us' ∈ [legacy_set; staff_set] ∧ get us' "key" = Ok key' ∧
                   toString key' = k' ∧
                   condition_includes simple_stringify "subject.groups" us' = Ok true).
Proof.
  intros s condition.
  assert (H1 : (listConditionSets scripted example_parse simple_stringify cfg s).1 =
               Ok (VArr [legacy_set; docs_set; staff_set])) by (vm_compute; reflexivity).
  assert (H2 : array_filter (VArr [legacy_set; docs_set; staff_set]) (has_type "userset") =
               Ok [legacy_set; staff_set]) by (vm_compute; reflexivity).
  assert (H3 : (verifySetup scripted example_parse simple_stringify cfg s).1 = Ok tt)
    by (vm_compute; reflexivity).
  assert (H4 : legacy_set ∈ [legacy_set; staff_set]) by apply list_elem_of_here.
  assert (H5 : get legacy_set "key" = Ok (VStr "legacy")) by (vm_compute; reflexivity).
  assert (H6 : get legacy_set "conditions" = Ok (groups_condition "subject.groups"))
    by (vm_compute; reflexivity).
  assert (H7 : simple_stringify (groups_condition "subject.groups") = Some condition)
    by (vm_compute; reflexivity).
  repeat (split; [assumption|]).
  exact (verifySetup_condition_scope_lint scripted example_parse simple_stringify cfg
           s _ _ _ _ _ _ H1 H2 H3 H4 H5 H6 H7).
Defined.

(** C4, as the code has it: a listing answered with a 2xx status and an
    empty body resolves to [null], not to an array, and the verification of
    the preset, which calls [filter] on it, throws. *)
Theorem list_null_on_empty_success :
  let remote := constant (Response 200 "") in
  (listResources remote example_parse simple_stringify cfg (start tt)).1 = Ok VNull ∧
  (listRoles remote example_parse simple_stringify cfg (start tt)).1 = Ok VNull ∧
  (listConditionSets remote example_parse simple_stringify cfg (start tt)).1 = Ok VNull ∧
  (listSetRules remote example_parse simple_stringify cfg (start tt)).1 = Ok VNull ∧
  (listUserAttributes remote example_parse simple_stringify cfg (start tt)).1 = Ok VNull ∧
  (verifySetup remote example_parse simple_stringify cfg (start tt)).1 = Throw TypeError.
Proof. vm_compute. done. Qed.

(** C7, as the code has it: a set rule whose deletion is answered 404 is
    not counted as deleted by the set-rules stage and gets no line of its
    own, where the resources stage reports a resource whose deletion is
    answered 404 as deleted. *)
Theorem deleteSetRules_404_not_counted :
  logs (deleteSetRules scripted example_parse simple_stringify cfg
          (start [Response 200 "RULES"; Response 404 "gone"])).2 =
    [(Info, "Deleting set rules...");
     (Warning, "API call failed with HTTP 404: gone");
     (Success, "  Deleted 0 set rules")] ∧
  logs (deleteResources scripted example_parse simple_stringify cfg
          (start [Response 200 "RESOURCES"; Response 404 "gone"])).2 =
    [(Info, "Deleting resources...");
     (Info, "  Skipping built-in resource: __user");
     (Info, "  Deleting resource: invoice");
     (Warning, "API call failed with HTTP 404: gone");
     (Success, "  Resource 'invoice' deleted");
     (Success, "All resources deleted")].
Proof. vm_compute. done. Qed.

(** C9 at a conflict: the create is answered 409, the function logs the
    user set as created and returns [true] after that single POST. *)
Lemma createOrUpdateUserSet_conflict :
  let r := createOrUpdateUserSet scripted example_parse simple_stringify cfg staff_set
             (start [Response 409 "exists"; Response 200 ""]) in
  r.1 = Ok true ∧
  map c_method (calls r.2) = ["POST"] ∧
  logs r.2 = [(Success, "  Created user set: staff")] ∧
  world r.2 = [Response 200 ""].
Proof. vm_compute. done. Qed.


(** ** The extra properties on the concrete remotes *)


Lemma partial_resets_spare_protected_witness :
  let remote := routed example_routes in
  let s := start tt in
  scalar_keys remote example_parse simple_stringify cfg (world s) ∧
  (∃ t, calls (resetAbac remote example_parse simple_stringify cfg s).2 = calls s ++ t ∧
        Forall (λ c, ¬ protected_delete cfg c) t) ∧
  (∃ t, calls (resetRbac remote example_parse simple_stringify cfg s).2 = calls s ++ t ∧
        Forall (λ c, ¬ protected_delete cfg c) t) ∧
  (∃ t, calls (resetResources remote example_parse simple_stringify cfg s).2 = calls s ++ t ∧
        Forall (λ c, ¬ protected_delete cfg c) t) ∧
  (∃ t, calls (resetRoles remote example_parse simple_stringify cfg s).2 = calls s ++ t ∧
        Forall (λ c, ¬ protected_delete cfg c) t).
Proof.
  intros remote s.
  assert (Hkeys : scalar_keys remote example_parse simple_stringify cfg (world s))
    by apply example_scalar_keys.
  split; [exact Hkeys|].
  exact (partial_resets_spare_protected remote example_parse simple_stringify cfg s Hkeys).
Defined.


Lemma resetAll_aborts_on_unlistable_rules_witness :
  let s := start [Response 200 "PAGE"] in
  (listSetRules scripted paged_parse simple_stringify cfg s).1 = Ok paged_rules ∧
  truthy paged_rules = true ∧
  iter paged_rules = Throw TypeError ∧
  (resetAll scripted paged_parse simple_stringify cfg s).1 = Throw TypeError ∧
  calls (resetAll scripted paged_parse simple_stringify cfg s).2 =
    calls s ++ [GET (facts cfg "/set_rules")].
Proof.
  intros s.
  assert (Hlist : (listSetRules scripted paged_parse simple_stringify cfg s).1 = Ok paged_rules)
    by (vm_compute; reflexivity).
  assert (Htruthy : truthy paged_rules = true) by reflexivity.
  assert (Hiter : iter paged_rules = Throw TypeError) by reflexivity.
  split; [exact Hlist|]. split; [exact Htruthy|]. split; [exact Hiter|].
  exact (resetAll_aborts_on_unlistable_rules scripted paged_parse simple_stringify cfg s
           paged_rules TypeError Hlist Htruthy Hiter).
Defined.




Lemma deleteSetRules_deletes_each_rule_witness :
  let s := start [Response 200 "RULES"; Response 404 "gone"] in
  let items := [example_rule] in
  (listSetRules scripted example_parse simple_stringify cfg s).1 = Ok (VArr items) ∧
  Forall readable items ∧
  (deleteSetRules scripted example_parse simple_stringify cfg s).1 = Ok tt ∧
  calls (deleteSetRules scripted example_parse simple_stringify cfg s).2 =
    calls s ++ GET (facts cfg "/set_rules") :: map (delete_rule_call cfg) items.
Proof.
  intros s items.
  assert (Hlist : (listSetRules scripted example_parse simple_stringify cfg s).1 =
                  Ok (VArr items))
    by (vm_compute; reflexivity).
  assert (Hitems : Forall readable items)
    by (repeat (apply Forall_cons; split); [..|apply Forall_nil]; by split).
  split; [exact Hlist|]. split; [exact Hitems|].
  exact (deleteSetRules_deletes_each_rule scripted example_parse simple_stringify cfg s
           items Hlist Hitems).
Defined.

Lemma createOrUpdateUserSet_returns_create_outcome_witness :
  let s := start [Response 409 "exists"] in
  readable staff_set ∧
  (createOrUpdateUserSet scripted example_parse simple_stringify cfg staff_set s).1 =
  Ok (success (result_of example_parse
        (scripted (world s)
           (sent simple_stringify cfg "POST" (schema cfg "/condition_sets")
              (VObj (<["type" := VStr "userset"]> (spread staff_set))))).1)).
Proof.
  intros s.
  assert (Hreadable : readable staff_set) by by split.
  split; [exact Hreadable|].
  exact (createOrUpdateUserSet_returns_create_outcome scripted example_parse
           simple_stringify cfg staff_set s Hreadable).
Defined.

Lemma creates_without_entity_witness :
  let s := start [Response 201 "created"] in
  (VNull = VUndef ∨ VNull = VNull) ∧
  createResource scripted example_parse simple_stringify cfg VNull s = (Throw TypeError, s) ∧
  createRole scripted example_parse simple_stringify cfg VNull s = (Throw TypeError, s) ∧
  createUserAttribute scripted example_parse simple_stringify cfg VNull s =
    (Throw TypeError, s) ∧
  createUserSet scripted example_parse simple_stringify cfg VNull s = (Throw TypeError, s) ∧
  createResourceSet scripted example_parse simple_stringify cfg VNull s =
    (Throw TypeError, s) ∧
  (createOrUpdateUserSet scripted example_parse simple_stringify cfg VNull s).1 =
    Throw TypeError ∧
  calls (createOrUpdateUserSet scripted example_parse simple_stringify cfg VNull s).2 =
    calls s ++ [Call "POST" (schema cfg "/condition_sets")
                  (VObj {[ "type" := VStr "userset" ]})].
Proof.
  intros s.
  assert (Hmissing : VNull = VUndef ∨ VNull = VNull) by (right; reflexivity).
  split; [exact Hmissing|].
  exact (creates_without_entity scripted example_parse simple_stringify cfg VNull s Hmissing).
Defined.

(** ** Keys and display names *)

Lemma upper_of_lower a :
  is_lower a = true →
  is_space (upper a) = false ∧ (Ascii.nat_of_ascii (upper a) =? 45)%nat = false ∧
  (Ascii.nat_of_ascii a =? 45)%nat = false.
Proof. destruct a as [[] [] [] [] [] [] [] []]; vm_compute; try discriminate; done. Qed.

Lemma trimEnd_keeps_head a r : is_space a = false → trimEnd (String a r) ≠ "".
Proof. intros Ha. cbn. rewrite Ha. by destruct (trimEnd r). Qed.

Lemma replace_dashes_length s : String.length (replace_dashes s) = String.length s.
Proof. induction s as [|a s IH]; cbn; [done|]. by rewrite IH. Qed.

Lemma replace_dashes_no_dash s :
  all_chars (fun a => negb (Ascii.nat_of_ascii a =? 45)%nat) (replace_dashes s) = true.
Proof.
  induction s as [|a s IH]; cbn; [done|]. rewrite IH, andb_true_r.
  by destruct (Ascii.nat_of_ascii a =? 45)%nat eqn:E; [|rewrite E].
Qed.

(** X14: for a key that [validateKey] accepts, the display name that
    [keyToDisplayName] proposes passes the validator of the name prompts
    (it is not blank), is as long as the key and has no hyphen left.
    Hypothesis: [toUpperCase] maps a lower-case ASCII letter to its
    upper-case letter. *)
Theorem default_display_name_accepted toUpperCase key message
    (Hupper : ∀ a, is_lower a = true →
                   toUpperCase (String a "") = String (upper a) "")
    (Hvalid : validateKey key = Valid) :
  required message (keyToDisplayName toUpperCase key) = Valid ∧
  String.length (keyToDisplayName toUpperCase key) = String.length key ∧
  all_chars (fun a => negb (Ascii.nat_of_ascii a =? 45)%nat)
    (keyToDisplayName toUpperCase key) = true.
Proof.
  unfold validateKey in Hvalid.
  destruct (String.eqb (trim key) ""); [done|].
  destruct (key_pattern_test key) eqn:Hpat; [|done].
  destruct key as [|a r]; [done|]. cbn in Hpat.
  apply andb_true_iff in Hpat as [Ha _].
  destruct (upper_of_lower a Ha) as (Hspace & Hdash & Hnodash).
  unfold keyToDisplayName, capitalize, required. cbn [replace_dashes charAt0 slice1].
  rewrite Hnodash, (Hupper a Ha).
  change (String (upper a) "" +:+ replace_dashes r)
    with (String (upper a) (replace_dashes r)).
  split_and!.
  - unfold trim. cbn [trimStart]. rewrite Hspace.
    pose proof (trimEnd_keeps_head (upper a) (replace_dashes r) Hspace) as Hne.
    by destruct (trimEnd _).
  - cbn. by rewrite replace_dashes_length.
  - cbn [all_chars]. by rewrite Hdash, replace_dashes_no_dash.
Qed.

Lemma default_display_name_accepted_witness :
  (∀ a, is_lower a = true →
        ascii_toUpperCase (String a "") = String (upper a) "") ∧
  validateKey "billing-team" = Valid ∧
  required "Resource name is required" (keyToDisplayName ascii_toUpperCase "billing-team") = Valid ∧
  String.length (keyToDisplayName ascii_toUpperCase "billing-team") =
    String.length "billing-team" ∧
  all_chars (fun a => negb (Ascii.nat_of_ascii a =? 45)%nat)
    (keyToDisplayName ascii_toUpperCase "billing-team") = true.
Proof.
  assert (Hupper : ∀ a, is_lower a = true →
            ascii_toUpperCase (String a "") = String (upper a) "").
  { intros a Ha. cbn. by rewrite Ha. }
  assert (Hvalid : validateKey "billing-team" = Valid) by reflexivity.
  split; [exact Hupper|]. split; [exact Hvalid|].
  exact (default_display_name_accepted ascii_toUpperCase "billing-team"
           "Resource name is required" Hupper Hvalid).
Defined.
